(** * A shallow embedding of the coding-agent tutorial

    The repository holds three renderings of the same agentic loop:
    - the single-file agent ([agent.ts], module [SingleFile] below),
    - the modularized agent ([src/tools.ts], [src/agent.ts], [src/utils.ts],
      [src/types.ts]; modules [Modular] and [Agent]),
    - the colourised agent with a [grep_search] tool (module [Enhanced]).

    JavaScript values, the [path] and [fs] modules of the runtime and the
    subprocess layer are modelled explicitly; exceptions are values of
    [completion], and the file system is threaded through every call.
    Strings are sequences of bytes, numbers are integers. *)

From Stdlib Require Import Ascii String.
From stdpp Require Import base strings list gmap pretty.

Open Scope string_scope.
Open Scope list_scope.

(** ** JavaScript values and argument objects *)

#[warnings="-register-all"]
Inductive JSValue : Type :=
  | JUndefined
  | JNull
  | JBool (b : bool)
  | JNum (n : Z)
  | JStr (s : string)
  | JArr (l : list JSValue)
  | JObj (fields : list (string * JSValue)).

(** A tool argument object, as decoded from the JSON the model sent. *)
Abbreviation Obj := (gmap string JSValue).

(** [input.k]: a missing property reads as [undefined]. *)
Definition get (o : Obj) (k : string) : JSValue := default JUndefined (o !! k).

(** [v === undefined || v === null] *)
Definition nullish (v : JSValue) : bool :=
  match v with JUndefined | JNull => true | _ => false end.

(** JavaScript truthiness (no NaN can come out of JSON). *)
Definition truthy (v : JSValue) : bool :=
  match v with
  | JUndefined | JNull => false
  | JBool b => b
  | JNum n => negb (n =? 0)%Z
  | JStr s => negb (String.eqb s "")
  | JArr _ | JObj _ => true
  end.

(** [sep.join(l)] *)
Fixpoint join (sep : string) (l : list string) : string :=
  match l with
  | [] => ""
  | [x] => x
  | x :: rest => x +:+ sep +:+ join sep rest
  end.

(** [o.k] on a decoded object: the last binding of a repeated key is
    the one [JSON.parse] keeps. *)
Fixpoint own (k : string) (fields : list (string * JSValue)) : option JSValue :=
  match fields with
  | [] => None
  | (k', v) :: rest =>
      match own k rest with
      | Some v' => Some v'
      | None => if String.eqb k k' then Some v else None
      end
  end.

(** ** Exceptions *)

(** An [Error] object: its [name], the [code] that the errors of the
    runtime's argument checks print after the name, and its [message]. *)
Record JSError := mkError { ename : string; code : option string; message : string }.

(** [`${error}`]: the runtime's own errors print their code after the
    name. *)
Definition errorToString (e : JSError) : string :=
  match code e with
  | Some c => ename e +:+ " [" +:+ c +:+ "]: " +:+ message e
  | None => ename e +:+ ": " +:+ message e
  end.

Inductive completion (A : Type) : Type :=
  | Normal (a : A)
  | Throw (e : JSError).
Arguments Normal {A} a.
Arguments Throw {A} e.

Definition dq : string := String (Ascii.ascii_of_nat 34) EmptyString.

(** [`${v}`], the string a template literal interpolates. A decoded
    object prints as [[object Object]], unless it has a property of its
    own called [toString]: that property is no function, and the
    conversion throws. Numbers are the integers that print in plain
    digits. *)
Fixpoint ToString (v : JSValue) : completion string :=
  match v with
  | JUndefined => Normal "undefined"
  | JNull => Normal "null"
  | JBool true => Normal "true"
  | JBool false => Normal "false"
  | JNum n => Normal (pretty n)
  | JStr s => Normal s
  | JArr l =>
      match
        (fix pieces (l : list JSValue) : completion (list string) :=
           match l with
           | [] => Normal []
           | x :: rest =>
               match (match x with
                      | JUndefined | JNull => Normal ""
                      | _ => ToString x
                      end) with
               | Normal piece =>
                   match pieces rest with
                   | Normal more => Normal (piece :: more)
                   | Throw e => Throw e
                   end
               | Throw e => Throw e
               end
           end) l
      with
      | Normal ps => Normal (join "," ps)
      | Throw e => Throw e
      end
  | JObj fields =>
      match own "toString" fields with
      | Some _ => Throw (mkError "TypeError" None "Cannot convert object to primitive value")
      | None => Normal "[object Object]"
      end
  end.

(** What the runtime's argument checks say they received. An object's
    own [constructor] property is not looked at. *)
Definition received (v : JSValue) : string :=
  match v with
  | JUndefined => "undefined"
  | JNull => "null"
  | JBool true => "type boolean (true)"
  | JBool false => "type boolean (false)"
  | JNum n => "type number (" +:+ pretty n +:+ ")"
  | JStr s => "type string ('" +:+ s +:+ "')"
  | JArr _ => "an instance of Array"
  | JObj _ => "an instance of Object"
  end.

(** The [ERR_INVALID_ARG_TYPE] error of the runtime. *)
Definition TypeError (arg ty : string) (actual : JSValue) : JSError :=
  mkError "TypeError" (Some "ERR_INVALID_ARG_TYPE")
    ("The " +:+ dq +:+ arg +:+ dq +:+ " argument must be of type " +:+ ty
     +:+ ". Received " +:+ received actual).

(** ** The [path] module (POSIX flavour) *)

(** Does [s] hold the character [c]? *)
Fixpoint has_char (c : Ascii.ascii) (s : string) : bool :=
  match s with
  | EmptyString => false
  | String a rest => Ascii.eqb a c || has_char c rest
  end.

(** [s.split(c)]: always at least one piece. *)
Fixpoint split_on (c : Ascii.ascii) (s : string) : list string :=
  match s with
  | EmptyString => [""]
  | String a rest =>
      if Ascii.eqb a c then "" :: split_on c rest
      else match split_on c rest with
           | [] => [String a ""]
           | piece :: pieces => String a piece :: pieces
           end
  end.

(** A resolved path is the list of its components below the root; a
    closing slash shows as a last component that is empty. *)
Abbreviation Path := (list string).

(** What is left of a path is its closing slash. *)
Definition is_slash (p : Path) : bool :=
  match p with
  | [c] => String.eqb c ""
  | _ => false
  end.

(** The path without its closing slash. *)
Fixpoint unslashed (p : Path) : Path :=
  match p with
  | [] => []
  | c :: rest => if is_slash p then [] else c :: unslashed rest
  end.

(** Does the string end in a slash? *)
Fixpoint ends_with_slash (s : string) : bool :=
  match s with
  | EmptyString => false
  | String a EmptyString => Ascii.eqb a "/"%char
  | String _ rest => ends_with_slash rest
  end.

(** Lexical normalisation: [.] and empty components vanish, [..] pops. *)
Fixpoint normalize_onto (acc : Path) (cs : list string) : Path :=
  match cs with
  | [] => acc
  | c :: rest =>
      if String.eqb c "" || String.eqb c "." then normalize_onto acc rest
      else if String.eqb c ".." then normalize_onto (removelast acc) rest
      else normalize_onto (acc ++ [c]) rest
  end.

Definition isAbsolute (p : string) : bool := String.prefix "/" p.

(** Does the text of a path ask for a directory at its end? A closing
    slash does, and so does a closing [.] where the text is not
    normalised. *)
Definition asks_for_directory (as_written : bool) (s : string) : bool :=
  ends_with_slash s
  || (as_written && String.eqb (List.last (split_on "/"%char s) "") ".").

Definition render (p : Path) : string := "/" +:+ join "/" p.

(** ** The file system *)

#[warnings="-register-all"]
Inductive node : Type :=
  | File (content : string)
  | Dir (entries : list (string * node)).

Fixpoint assoc {A} (k : string) (es : list (string * A)) : option A :=
  match es with
  | [] => None
  | (k', v) :: rest => if String.eqb k k' then Some v else assoc k rest
  end.

(** Replace the first binding of [k], or append one. *)
Fixpoint put {A} (k : string) (v : A) (es : list (string * A)) : list (string * A) :=
  match es with
  | [] => [(k, v)]
  | (k', v') :: rest =>
      if String.eqb k k' then (k, v) :: rest else (k', v') :: put k v rest
  end.

Inductive lookup_result : Type :=
  | Found (n : node)
  | NoEnt
  | NotDir.

(** Following a path from a node. A closing slash asks for a directory:
    on a directory it stays there, on a regular file the lookup fails. *)
Fixpoint walk (p : Path) (n : node) {struct p} : lookup_result :=
  match p with
  | [] => Found n
  | c :: rest =>
      match n with
      | File _ => NotDir
      | Dir es =>
          if is_slash p then Found n
          else match assoc c es with
               | Some child => walk rest child
               | None => NoEnt
               end
      end
  end.

Definition ENOENT (syscall : string) (p : Path) : JSError :=
  mkError "Error" None
    ("ENOENT: no such file or directory, " +:+ syscall +:+ " '" +:+ render p +:+ "'").
Definition ENOTDIR (syscall : string) (p : Path) : JSError :=
  mkError "Error" None
    ("ENOTDIR: not a directory, " +:+ syscall +:+ " '" +:+ render p +:+ "'").
Definition EISDIR (syscall : string) (p : Path) : JSError :=
  mkError "Error" None
    ("EISDIR: illegal operation on a directory, " +:+ syscall +:+ " '" +:+ render p +:+ "'").
(** A directory opens for reading; it is the read that fails, and its
    message names no path. *)
Definition EISDIR_read : JSError :=
  mkError "Error" None "EISDIR: illegal operation on a directory, read".

(** [fs.readFileSync(p, "utf-8")] *)
Definition readFileSync (p : Path) (root : node) : completion string :=
  match walk p root with
  | Found (File c) => Normal c
  | Found (Dir _) => Throw EISDIR_read
  | NoEnt => Throw (ENOENT "open" p)
  | NotDir => Throw (ENOTDIR "open" p)
  end.

(** Creating or truncating the file at [p]; parents are never created,
    and a path with a closing slash names no regular file. *)
Fixpoint store (whole p : Path) (s : string) (n : node) {struct p} : completion node :=
  match p with
  | [] =>
      match n with
      | File _ => Normal (File s)
      | Dir _ => Throw (EISDIR "open" whole)
      end
  | c :: rest =>
      match n with
      | File _ => Throw (ENOTDIR "open" whole)
      | Dir es =>
          if is_slash p then Throw (EISDIR "open" whole)
          else match assoc c es with
               | Some child =>
                   match store whole rest s child with
                   | Normal child' => Normal (Dir (put c child' es))
                   | Throw e => Throw e
                   end
               | None =>
                   match rest with
                   | [] => Normal (Dir (put c (File s) es))
                   | _ => if is_slash rest then Throw (EISDIR "open" whole)
                          else Throw (ENOENT "open" whole)
                   end
               end
      end
  end.

(** [fs.writeFileSync(p, data)]: only string data is accepted. *)
Definition writeFileSync (p : Path) (data : JSValue) (root : node) : completion node :=
  match data with
  | JStr s => store p p s root
  | _ => Throw (TypeError "data" "string or an instance of Buffer, TypedArray, or DataView" data)
  end.

(** A [Dirent]: the entry name and whether it is a directory. *)
Record Dirent := mkDirent { ent_name : string; isDirectory : bool }.

Definition dirent_of (e : string * node) : Dirent :=
  mkDirent (fst e) (match snd e with Dir _ => true | File _ => false end).

(** [fs.readdirSync(p, { withFileTypes: true })] *)
Definition readdirSync (p : Path) (root : node) : completion (list Dirent) :=
  match walk p root with
  | Found (Dir es) => Normal (map dirent_of es)
  | Found (File _) => Throw (ENOTDIR "scandir" p)
  | NoEnt => Throw (ENOENT "scandir" p)
  | NotDir => Throw (ENOTDIR "scandir" p)
  end.

(** ** Computations that read or change the file system and may throw *)

Definition M (A : Type) : Type := node -> completion A * node.

Definition ret {A} (a : A) : M A := fun w => (Normal a, w).

Definition raise {A} (c : completion A) : M A := fun w => (c, w).

Definition bindM {A B} (m : M A) (k : A -> M B) : M B :=
  fun w =>
    match m w with
    | (Normal a, w') => k a w'
    | (Throw e, w') => (Throw e, w')
    end.

(** [try { body } catch (e) { handler e }] *)
Definition try_catch {A} (body : M A) (handler : JSError -> M A) : M A :=
  fun w =>
    match body w with
    | (Normal a, w') => (Normal a, w')
    | (Throw e, w') => handler e w'
    end.

Definition reading {A} (f : node -> completion A) : M A := fun w => (f w, w).

Definition writing (f : node -> completion node) : M unit :=
  fun w =>
    match f w with
    | Normal w' => (Normal tt, w')
    | Throw e => (Throw e, w)
    end.

Declare Scope js_scope.
Delimit Scope js_scope with js.
Notation "'let*' x ':=' m 'in' k" := (bindM m (fun x => k))
  (at level 10, x name, m at level 100, k at level 200) : js_scope.
Notation "'run' m 'in' k" := (bindM m (fun _ => k))
  (at level 10, m at level 100, k at level 200) : js_scope.

(** ** The subprocess layer and the process environment *)

(** What comes of [spawn]. The call itself may throw, as it does on a
    command that holds a NUL byte: the exception leaves the executor of
    the promise, and the promise is rejected. Otherwise the child reports
    back in one of the two events the source listens to: a [close] event
    with the exit code ([null] when a signal ended it) and the two
    collected streams, or an [error] event when the process could not be
    started. *)
Inductive SpawnOutcome : Type :=
  | Closed (code : option Z) (stdout stderr : string)
  | SpawnFailed (e : JSError)
  | SpawnThrew (e : JSError).

(** [cwd] is [process.cwd()] at start-up; [spawn] stands for
    [spawn("bash", ["-c", command], { cwd })], which receives the command
    exactly as the argument object holds it and may change the file
    system. *)
Class Runtime : Type := {
  cwd : Path;
  spawn : JSValue -> node -> SpawnOutcome * node
}.

Definition nl : string := String "010"%char EmptyString.

Definition exitCode (code : option Z) : string :=
  match code with
  | Some n => pretty n
  | None => "null"
  end.

Section PathResolution.
Context {rt : Runtime}.

(** [const resolvePath = (p) => path.isAbsolute(p) ? p : path.join(cwd, p)];
    both [path] functions throw on anything but a string. [path.join]
    normalises and keeps a closing slash. An absolute path goes to the
    file system as it is written, and the file system follows it
    component by component: repeated slashes and [.] change nothing
    there, except that a closing [.] asks for a directory as a closing
    slash does. A [..] is taken as [path.join] takes it; the file system
    would also ask that the directory it steps back from exists. *)
Definition resolvePath (p : JSValue) : completion Path :=
  match p with
  | JStr s =>
      let components :=
        normalize_onto (if isAbsolute s then [] else cwd) (split_on "/"%char s) in
      Normal (match components with
              | [] => []
              | _ => if asks_for_directory (isAbsolute s) s
                     then components ++ [""] else components
              end)
  | _ => Throw (TypeError "path" "string" p)
  end.
End PathResolution.

(** ** [src/tools.ts]: the Tool Executor of the modularized variant *)

(** A tool descriptor shown to the model: each property of the input
    schema is listed with its declared type. *)
Record Tool := mkTool {
  tool_name : string;
  description : string;
  properties : list (string * string);
  required : list string
}.

Module Modular.
Definition tools : list Tool :=
  [ mkTool "read_file" "Read contents of a file" [("path", "string")] ["path"];
    mkTool "write_file"
      "Write content to a file. Both path and content parameters must be provided."
      [("path", "string"); ("content", "string")] ["path"; "content"];
    mkTool "list_dir" "List directory contents" [("path", "string")] ["path"];
    mkTool "bash" "Run a shell command" [("command", "string")] ["command"] ].

Section Tools.
Context {rt : Runtime}.
Local Open Scope js_scope.

Definition executeTool (name : string) (input : Obj) : M string :=
  if String.eqb name "read_file" then
    try_catch
      (let* p := raise (resolvePath (get input "path")) in
       reading (readFileSync p))
      (fun e => ret ("Error: " +:+ message e))
  else if String.eqb name "write_file" then
    try_catch
      (if nullish (get input "content")
       then ret "Error: content parameter is required but was not provided"
       else
         let* p := raise (resolvePath (get input "path")) in
         run writing (writeFileSync p (get input "content")) in
         let* shown := raise (ToString (get input "path")) in
         ret ("Written to " +:+ shown))
      (fun e => ret ("Error: " +:+ message e))
  else if String.eqb name "list_dir" then
    try_catch
      (let* p := raise (resolvePath (get input "path")) in
       let* entries := reading (readdirSync p) in
       ret (join nl (map (fun e => if isDirectory e
                                   then ent_name e +:+ "/"
                                   else ent_name e) entries)))
      (fun e => ret ("Error: " +:+ message e))
  else if String.eqb name "bash" then
    fun w =>
      match spawn (get input "command") w with
      | (Closed code stdout stderr, w') =>
          (Normal ("Exit code: " +:+ exitCode code +:+ nl +:+ stdout
                   +:+ (if String.eqb stderr "" then ""
                        else nl +:+ "Stderr: " +:+ stderr)), w')
      | (SpawnFailed e, w') => (Normal ("Error: " +:+ message e), w')
      | (SpawnThrew e, w') => (Throw e, w')
      end
  else
    ret ("Unknown tool: " +:+ name).
End Tools.
End Modular.

(** ** [agent.ts]: the Tool Executor of the single-file variant *)

Module SingleFile.
Definition tools : list Tool :=
  [ mkTool "read_file" "Read contents of a file" [("path", "string")] ["path"];
    mkTool "write_file" "Write content to a file"
      [("path", "string"); ("content", "string")] ["path"; "content"];
    mkTool "list_dir" "List directory contents" [("path", "string")] ["path"];
    mkTool "bash" "Run a shell command" [("command", "string")] ["command"] ].

Section Tools.
Context {rt : Runtime}.
Local Open Scope js_scope.

Definition executeTool (name : string) (input : Obj) : M string :=
  if String.eqb name "read_file" then
    try_catch
      (let* p := raise (resolvePath (get input "path")) in
       reading (readFileSync p))
      (fun e => ret ("Error: " +:+ message e))
  else if String.eqb name "write_file" then
    try_catch
      (let* p := raise (resolvePath (get input "path")) in
       run writing (writeFileSync p (get input "content")) in
       let* shown := raise (ToString (get input "path")) in
       ret ("Written to " +:+ shown))
      (fun e => ret ("Error: " +:+ message e))
  else if String.eqb name "list_dir" then
    try_catch
      (let* p := raise (resolvePath (get input "path")) in
       let* entries := reading (readdirSync p) in
       ret (join nl (map (fun e => if isDirectory e
                                   then ent_name e +:+ "/"
                                   else ent_name e) entries)))
      (fun e => ret ("Error: " +:+ message e))
  else if String.eqb name "bash" then
    fun w =>
      match spawn (get input "command") w with
      | (Closed code stdout stderr, w') =>
          (Normal ("Exit code: " +:+ exitCode code +:+ nl +:+ stdout
                   +:+ (if String.eqb stderr "" then ""
                        else nl +:+ "Stderr: " +:+ stderr)), w')
      | (SpawnFailed e, w') => (Normal ("Error: " +:+ message e), w')
      | (SpawnThrew e, w') => (Throw e, w')
      end
  else
    ret ("Unknown tool: " +:+ name).
End Tools.
End SingleFile.

(** ** [src/types.ts] *)

Module TokenUsage.
Record t := mk { inputTokens : N; outputTokens : N; totalTokens : N }.
End TokenUsage.

Module SessionStats.
Record t := mk {
  totalTokens : N;
  requestCount : N;
  maxContextTokens : N;
  currentConversationTokens : N
}.
End SessionStats.

(** ** The conversation transcript *)

Inductive Role : Type := user | assistant.

Inductive ContentBlock : Type :=
  | TextBlock (text : string)
  | ToolUseBlock (id name : string) (input : Obj)
  | ToolResultBlock (tool_use_id content : string)
  | OtherBlock.

Inductive MessageContent : Type :=
  | Text (s : string)
  | Blocks (bs : list ContentBlock).

Record MessageParam := mkMessage { role : Role; content : MessageContent }.

(** The part of the model's reply the loop looks at. *)
Record Response := mkResponse { response_content : list ContentBlock }.

(** The hosted model, [client.messages.create]: it sees the system prompt
    and the transcript (the tool list is fixed) and answers or throws. *)
Class Anthropic : Type := {
  messages_create : string -> list MessageParam -> completion Response
}.

(** [countTokens] of the tokenizer package, [JSON.stringify] on argument
    objects, and [JSON.stringify(tools)] for the compiled-in tool list. *)
Class Tokenizer : Type := {
  countTokens : string -> N;
  JSON_stringify : Obj -> string;
  tools_json : string
}.

(** ** [src/utils.ts]: token accounting *)

Module Utils.
Section Usage.
Context {tk : Tokenizer}.

Definition calculateTokenUsage (messages : list MessageParam)
    (systemPrompt : string) (response : Response) : TokenUsage.t :=
  let inputText :=
    foldl (fun acc m =>
             match content m with
             | Text s => acc +:+ s
             | Blocks bs =>
                 foldl (fun acc b =>
                          match b with
                          | TextBlock text => acc +:+ text
                          | ToolResultBlock _ c => acc +:+ c
                          | _ => acc
                          end) acc bs
             end) systemPrompt messages in
  let inputText := inputText +:+ tools_json in
  let outputText :=
    foldl (fun acc b =>
             match b with
             | TextBlock text => acc +:+ text
             | ToolUseBlock _ _ input => acc +:+ JSON_stringify input
             | _ => acc
             end) "" (response_content response) in
  let inputTokens := countTokens inputText in
  let outputTokens := countTokens outputText in
  TokenUsage.mk inputTokens outputTokens (inputTokens + outputTokens)%N.

(** The statistics are updated in place; the line printed afterwards is
    not modelled. *)
Definition updateContextUsage (usage : TokenUsage.t) (stats : SessionStats.t)
    : SessionStats.t :=
  SessionStats.mk
    (SessionStats.totalTokens stats + TokenUsage.totalTokens usage)%N
    (SessionStats.requestCount stats + 1)%N
    (SessionStats.maxContextTokens stats)
    (SessionStats.currentConversationTokens stats + TokenUsage.inputTokens usage)%N.
End Usage.
End Utils.

(** ** [src/agent.ts]: the Turn Loop of the modularized variant *)

(** What the loop does to the outside, in program order. *)
Inductive Event : Type :=
  | ModelRequest (messages : list MessageParam)
  | ToolExecution (id name : string) (input : Obj).

Module Agent.
(** Everything [runAgent] reads and writes: its transcript and loop
    counter, the session statistics object it shares with its caller,
    the file system, and the record of what it has done so far. *)
Record State := mkState {
  messages : list MessageParam;
  loopCount : N;
  sessionStats : SessionStats.t;
  disk : node;
  trace : list Event
}.

Inductive Outcome : Type :=
  | Returned (s : State)
  | Thrown (e : JSError) (s : State)
  | OutOfFuel (s : State).

Section Loop.
Context {rt : Runtime} {api : Anthropic} {tk : Tokenizer}.

Definition systemPrompt : string :=
  "You are a coding assistant. Working directory: " +:+ render cwd +:+ nl
  +:+ "Use tools to help the user. Be concise.".

(** [for (const block of response.content) { ... }]: text is printed,
    a [tool_use] block is executed and its result pushed. *)
Fixpoint forBlocks (bs : list ContentBlock) (hasToolUse : bool)
    (toolResults : list ContentBlock) (w : node) (tr : list Event)
    : completion (bool * list ContentBlock) * node * list Event :=
  match bs with
  | [] => (Normal (hasToolUse, toolResults), w, tr)
  | ToolUseBlock id name input :: rest =>
      match Modular.executeTool name input w with
      | (Normal result, w') =>
          forBlocks rest true (toolResults ++ [ToolResultBlock id result]) w'
                    (tr ++ [ToolExecution id name input])
      | (Throw e, w') => (Throw e, w', tr ++ [ToolExecution id name input])
      end
  | _ :: rest => forBlocks rest hasToolUse toolResults w tr
  end.

Definition bumpRequestCount (stats : SessionStats.t) : SessionStats.t :=
  SessionStats.mk
    (SessionStats.totalTokens stats)
    (SessionStats.requestCount stats + 1)%N
    (SessionStats.maxContextTokens stats)
    (SessionStats.currentConversationTokens stats).

(** [while (true) { ... }], with [fuel] bounding the iterations. *)
Fixpoint loop (fuel : nat) (s : State) : Outcome :=
  match fuel with
  | O => OutOfFuel s
  | S fuel' =>
      let loopCount := (loopCount s + 1)%N in
      let stats := bumpRequestCount (sessionStats s) in
      let tr := trace s ++ [ModelRequest (messages s)] in
      match messages_create systemPrompt (messages s) with
      | Throw e => Thrown e (mkState (messages s) loopCount stats (disk s) tr)
      | Normal response =>
          let tokenUsage :=
            Utils.calculateTokenUsage (messages s) systemPrompt response in
          let stats := Utils.updateContextUsage tokenUsage stats in
          match forBlocks (response_content response) false [] (disk s) tr with
          | (Throw e, w, tr) => Thrown e (mkState (messages s) loopCount stats w tr)
          | (Normal (hasToolUse, toolResults), w, tr) =>
              let messages :=
                messages s ++ [mkMessage assistant (Blocks (response_content response))] in
              if hasToolUse
              then loop fuel' (mkState (messages ++ [mkMessage user (Blocks toolResults)])
                                       loopCount stats w tr)
              else Returned (mkState messages loopCount stats w tr)
          end
      end
  end.

Definition runAgent (userMessage : string) (sessionStats : SessionStats.t)
    (w : node) (fuel : nat) : Outcome :=
  loop fuel (mkState [mkMessage user (Text userMessage)] 0 sessionStats w []).
End Loop.
End Agent.

(** ** [agent.ts], single-file variant: the Turn Loop *)

(** The [stop_reason] field of a reply, which [Response] leaves out. *)
Class StopReason : Type := {
  stop_reason : Response -> string
}.

Module SingleFileAgent.
(** What [runAgent] of the single-file variant reads and writes: its
    transcript and the file system, with the record of what it has done. *)
Record State := mkState {
  messages : list MessageParam;
  disk : node;
  trace : list Event
}.

Inductive Outcome : Type :=
  | Returned (s : State)
  | Thrown (e : JSError) (s : State)
  | OutOfFuel (s : State).

Section Loop.
Context {rt : Runtime} {api : Anthropic} {sr : StopReason}.

Definition systemPrompt : string :=
  "You are a coding assistant. Working directory: " +:+ render cwd +:+ nl
  +:+ "Use tools to help the user. Be concise.".

Fixpoint forBlocks (bs : list ContentBlock) (hasToolUse : bool)
    (toolResults : list ContentBlock) (w : node) (tr : list Event)
    : completion (bool * list ContentBlock) * node * list Event :=
  match bs with
  | [] => (Normal (hasToolUse, toolResults), w, tr)
  | ToolUseBlock id name input :: rest =>
      match SingleFile.executeTool name input w with
      | (Normal result, w') =>
          forBlocks rest true (toolResults ++ [ToolResultBlock id result]) w'
                    (tr ++ [ToolExecution id name input])
      | (Throw e, w') => (Throw e, w', tr ++ [ToolExecution id name input])
      end
  | _ :: rest => forBlocks rest hasToolUse toolResults w tr
  end.

(** [while (true) { ... }]; the test on [stop_reason] comes after the
    branch that has already left the loop when no tool was used. *)
Fixpoint loop (fuel : nat) (s : State) : Outcome :=
  match fuel with
  | O => OutOfFuel s
  | S fuel' =>
      let tr := trace s ++ [ModelRequest (messages s)] in
      match messages_create systemPrompt (messages s) with
      | Throw e => Thrown e (mkState (messages s) (disk s) tr)
      | Normal response =>
          match forBlocks (response_content response) false [] (disk s) tr with
          | (Throw e, w, tr) => Thrown e (mkState (messages s) w tr)
          | (Normal (hasToolUse, toolResults), w, tr) =>
              let messages :=
                messages s ++ [mkMessage assistant (Blocks (response_content response))] in
              if hasToolUse
              then
                let messages := messages ++ [mkMessage user (Blocks toolResults)] in
                if String.eqb (stop_reason response) "end_turn" && negb hasToolUse
                then Returned (mkState messages w tr)
                else loop fuel' (mkState messages w tr)
              else Returned (mkState messages w tr)
          end
      end
  end.

Definition runAgent (userMessage : string) (w : node) (fuel : nat) : Outcome :=
  loop fuel (mkState [mkMessage user (Text userMessage)] w []).
End Loop.
End SingleFileAgent.

(** ** The colourised variant: the [grep_search] case of [executeTool] *)

(** The [colorize] helpers of [./colors] that the search uses; the module
    is not part of the sources, so its functions are parameters. *)
Class Colorize : Type := {
  colorize_file : string -> string;
  colorize_info : string -> string;
  colorize_highlight : string -> string;
  colorize_error : string -> string;
  colorize_warning : string -> string;
  colorize_success : string -> string
}.

(** The regular expressions built into the language:
    [new RegExp(pattern, flags)], whether [line.match(regex)] finds
    anything, and [line.replace(regex, f)]. *)
Class RegExpEngine : Type := {
  RegExp : Type;
  RegExp_new : JSValue -> string -> completion RegExp;
  String_match : string -> RegExp -> bool;
  String_replace : string -> RegExp -> (string -> string) -> string
}.

(** The conversion of strings to numbers that is built into the
    language, as far as the search needs it: is [Number(s) > 0]? *)
Class Numbers : Type := {
  positive_number : string -> bool
}.

(** [v > 0]: a value that is no number is converted to one; arrays and
    objects go through their string. *)
Definition greater_than_zero {nu : Numbers} (v : JSValue) : completion bool :=
  match v with
  | JUndefined | JNull => Normal false
  | JBool b => Normal b
  | JNum n => Normal (0 <? n)%Z
  | JStr s => Normal (positive_number s)
  | JArr _ | JObj _ =>
      match ToString v with
      | Normal s => Normal (positive_number s)
      | Throw e => Throw e
      end
  end.

(** [path.relative(from, to)] on resolved paths. *)
Fixpoint relative_components (from to : Path) : Path :=
  match from, to with
  | f :: from', t :: to' =>
      if String.eqb f t then relative_components from' to'
      else map (fun _ => "..") from ++ to
  | _, _ => map (fun _ => "..") from ++ to
  end.

Definition relative (from to : Path) : string := join "/" (relative_components from to).

(** Position of the last dot of [s], counted from the start. *)
Fixpoint last_dot (s : string) : option nat :=
  match s with
  | EmptyString => None
  | String a rest =>
      match last_dot rest with
      | Some i => Some (S i)
      | None => if Ascii.eqb a "."%char then Some 0 else None
      end
  end.

(** [path.extname(p)]: from the last dot of the last component, unless
    that dot opens the component. *)
Definition extname (p : Path) : string :=
  let base := List.last p "" in
  match last_dot base with
  | None | Some 0 => ""
  | Some i => if String.eqb base ".." then "" else String.substring i (String.length base - i) base
  end.

(** [haystack.includes(needle)] on strings. *)
Fixpoint includes (haystack needle : string) : bool :=
  String.prefix needle haystack ||
  match haystack with
  | EmptyString => false
  | String _ rest => includes rest needle
  end.

Module Enhanced.
Section Grep.
Context {rt : Runtime} {col : Colorize} {re : RegExpEngine} {nu : Numbers}.

(** Is the file passed over? [fileExtensions] is
    [input.file_extensions || []], whatever kind of value it is. An
    array or a string that is not empty passes over the files whose
    extension it does not include. A decoded object has no [includes]:
    unless its [length] compares as not above zero, the test throws
    inside the [try] of [searchInFile], and the file is skipped. A
    number or a boolean has no [length], and filters nothing. *)
Definition filtered_out (fileExtensions : JSValue) (filePath : Path) : bool :=
  if truthy fileExtensions then
    match fileExtensions with
    | JArr l =>
        match l with
        | [] => false
        | _ => negb (existsb (fun v => match v with
                                       | JStr e => String.eqb e (extname filePath)
                                       | _ => false
                                       end) l)
        end
    | JStr s => negb (includes s (extname filePath))
    | JObj fields =>
        match greater_than_zero (default JUndefined (own "length" fields)) with
        | Normal false => false
        | _ => true
        end
    | _ => false
    end
  else false.

(** [lines.forEach((line, index) => { ... })] *)
Fixpoint forEachLine (regex : RegExp) (filePath : Path) (lines : list string)
    (index : nat) (results : list string) : list string :=
  match lines with
  | [] => results
  | line :: rest =>
      let results :=
        if String_match line regex then
          let relativePath := relative cwd filePath in
          let lineNumber := S index in
          let highlightedLine := String_replace line regex colorize_highlight in
          results ++ [colorize_file relativePath +:+ ":"
                      +:+ colorize_info (pretty lineNumber) +:+ ":"
                      +:+ highlightedLine]
        else results in
      forEachLine regex filePath rest (S index) results
  end.

(** [searchInFile(filePath)] on a path that holds a regular file with the
    given content: [fs.statSync] and [fs.readFileSync] succeed on it, so
    neither the [isFile()] test nor the [catch] is taken. *)
Definition searchInFile (regex : RegExp) (fileExtensions : JSValue)
    (filePath : Path) (content : string) (results : list string) : list string :=
  if filtered_out fileExtensions filePath then results
  else forEachLine regex filePath (split_on "010"%char content) 0 results.

Definition descend (recursive : JSValue) (name : string) : bool :=
  truthy recursive && negb (String.prefix "." name)
  && negb (String.eqb name "node_modules").

(** The body of the loop of [searchDirectory(dirPath)] for one entry of
    the listing: a regular file is searched, a directory is entered when
    the search is recursive and its name is neither hidden nor
    [node_modules]. An entry name is a single component, which
    [path.join] adds to [dirPath]. Reading [fullPath] gives the entry's
    own node, so the recursion follows the tree. *)
Fixpoint searchEntry (regex : RegExp) (fileExtensions recursive : JSValue)
    (dirPath : Path) (name : string) (child : node) (results : list string)
    {struct child} : list string :=
  let fullPath := dirPath ++ [name] in
  match child with
  | File content => searchInFile regex fileExtensions fullPath content results
  | Dir entries =>
      if descend recursive name then
        (fix searchDirectory (entries : list (string * node)) (results : list string) :=
           match entries with
           | [] => results
           | (name', child') :: rest =>
               searchDirectory rest
                 (searchEntry regex fileExtensions recursive fullPath name' child' results)
           end) entries results
      else results
  end.

Definition searchDirectory (regex : RegExp) (fileExtensions recursive : JSValue)
    (dirPath : Path) (entries : list (string * node)) (results : list string)
    : list string :=
  foldl (fun results e => searchEntry regex fileExtensions recursive dirPath (e.1) (e.2) results)
        results entries.

(** What ends up in [results] once the target has been walked, or the
    exception [fs.statSync(targetPath)] throws. Every node is a regular
    file or a directory, so the third branch of the source, for a path
    that is neither, has no counterpart. The closing slash a directory
    target may carry is gone after the first [path.join]. *)
Definition collect (regex : RegExp) (fileExtensions recursive : JSValue)
    (targetPath : Path) (root : node) : completion (list string) :=
  match walk targetPath root with
  | Found (File content) =>
      Normal (searchInFile regex fileExtensions targetPath content [])
  | Found (Dir entries) =>
      Normal (searchDirectory regex fileExtensions recursive
                (unslashed targetPath) entries [])
  | NoEnt => Throw (ENOENT "stat" targetPath)
  | NotDir => Throw (ENOTDIR "stat" targetPath)
  end.

Local Open Scope js_scope.

Definition grep_search (input : Obj) : M string :=
  try_catch
    (let* targetPath := raise (resolvePath (get input "path")) in
     let pattern := get input "pattern" in
     let recursive := if nullish (get input "recursive") then JBool true
                      else get input "recursive" in
     let caseSensitive := if nullish (get input "case_sensitive") then JBool false
                          else get input "case_sensitive" in
     let fileExtensions := get input "file_extensions" in
     match RegExp_new pattern (if truthy caseSensitive then "g" else "gi") with
     | Throw error =>
         ret (colorize_error ("Invalid regex pattern: " +:+ errorToString error))
     | Normal regex =>
         let* results := reading (collect regex fileExtensions recursive targetPath) in
         let* shown := raise (ToString pattern) in
         match results with
         | [] => ret (colorize_warning ("No matches found for pattern: " +:+ shown))
         | _ =>
             let summary :=
               colorize_success ("Found " +:+ pretty (length results)
                                 +:+ " matches for pattern: " +:+ shown) in
             ret (summary +:+ nl +:+ nl +:+ join nl results)
         end
     end)
    (fun error => ret (colorize_error ("Error during search: " +:+ errorToString error))).
End Grep.
End Enhanced.

(** ** A small concrete machine, used to run the definitions *)

Module Sim.
(** The digits of [exit N]. *)
Fixpoint digits (s : string) (acc : Z) : option Z :=
  match s with
  | EmptyString => Some acc
  | String a rest =>
      let d := (Z.of_nat (nat_of_ascii a) - 48)%Z in
      if ((0 <=? d) && (d <=? 9))%Z then digits rest (10 * acc + d)%Z else None
  end.

(** The text with each NUL byte written as an escape. *)
Fixpoint escape_nul (s : string) : string :=
  match s with
  | EmptyString => EmptyString
  | String a rest =>
      if Ascii.eqb a "000"%char then "\x00" +:+ escape_nul rest
      else String a (escape_nul rest)
  end.

(** The exception of [spawn] on a command that holds a NUL byte. *)
Definition null_bytes (command : string) : JSError :=
  mkError "TypeError" (Some "ERR_INVALID_ARG_VALUE")
    ("The argument 'args[1]' must be a string without null bytes. Received '"
     +:+ escape_nul command +:+ "'").

(** A shell that knows [exit N] and [true], and reports every other
    command line as not found; [no-such-shell] stands for a machine
    without [bash]. A value that is not a string reaches the shell as
    the text the runtime coerces it to. [spawn] throws on a command with
    a NUL byte before any process is started. *)
Definition shell (command : JSValue) (w : node) : SpawnOutcome * node :=
  match ToString command with
  | Throw e => (SpawnThrew e, w)
  | Normal line =>
      if has_char "000"%char line then (SpawnThrew (null_bytes line), w)
      else if String.eqb line "no-such-shell"
      then (SpawnFailed (mkError "Error" None "spawn bash ENOENT"), w)
      else if String.eqb line "true" then (Closed (Some 0%Z) "" "", w)
      else if String.prefix "exit " line then
        let status := String.substring 5 (String.length line - 5) line in
        match digits status 0 with
        | Some n => (Closed (Some (n mod 256)%Z) "" "", w)
        | None =>
            (Closed (Some 2%Z) ""
               ("bash: line 1: exit: " +:+ status +:+ ": numeric argument required" +:+ nl), w)
        end
      else
        (Closed (Some 127%Z) "" ("bash: line 1: " +:+ line +:+ ": command not found" +:+ nl), w)
  end.

#[export] Instance runtime : Runtime :=
  {| cwd := ["home"; "dev"; "project"]; spawn := shell |}.

Definition project : node :=
  Dir [("src", Dir [("main.ts", File ("import x" +:+ nl +:+ "let y" +:+ nl +:+ "foobar();"));
                    ("util.ts", File "export {}")]);
       ("README.md", File "hello")].

Definition disk : node := Dir [("home", Dir [("dev", Dir [("project", project)])])].

(** A model that asks for two tools when told to inspect, and otherwise
    answers in plain text. *)
Definition inspect_reply : Response :=
  mkResponse [ TextBlock "Let me look.";
               ToolUseBlock "toolu_01" "read_file" {["path" := JStr "README.md"]};
               ToolUseBlock "toolu_02" "bash" {["command" := JStr "exit 7"]} ].

Definition scripted (system : string) (messages : list MessageParam)
    : completion Response :=
  match messages with
  | [m] =>
      match content m with
      | Text "inspect" => Normal inspect_reply
      | _ => Normal (mkResponse [TextBlock "Hello."])
      end
  | _ => Normal (mkResponse [TextBlock "Done."])
  end.

#[export] Instance model : Anthropic := {| messages_create := scripted |}.

(** One token per character. *)
#[export] Instance tokenizer : Tokenizer :=
  {| countTokens := fun s => N.of_nat (String.length s);
     JSON_stringify := fun o =>
       "{" +:+ join "," (map (fun kv => dq +:+ kv.1 +:+ dq +:+ ":" +:+ dq
                                        +:+ match ToString kv.2 with
                                            | Normal text => text
                                            | Throw _ => "{}"
                                            end +:+ dq) (map_to_list o))
       +:+ "}";
     tools_json := "[]" |}.

(** Colours switched off. *)
#[export] Instance plain : Colorize :=
  {| colorize_file := id; colorize_info := id; colorize_highlight := id;
     colorize_error := id; colorize_warning := id; colorize_success := id |}.

Definition lower (a : Ascii.ascii) : Ascii.ascii :=
  let n := nat_of_ascii a in
  if (65 <=? n)%nat && (n <=? 90)%nat then ascii_of_nat (n + 32) else a.

Fixpoint lowercase (s : string) : string :=
  match s with
  | EmptyString => EmptyString
  | String a rest => String (lower a) (lowercase rest)
  end.

(** A pattern of letters, digits, spaces and underscores only. *)
Fixpoint literal (s : string) : bool :=
  match s with
  | EmptyString => true
  | String a rest =>
      let n := nat_of_ascii a in
      (((48 <=? n)%nat && (n <=? 57)%nat) || ((65 <=? n)%nat && (n <=? 90)%nat)
       || ((97 <=? n)%nat && (n <=? 122)%nat) || (n =? 32)%nat || (n =? 95)%nat)
      && literal rest
  end.

(** A compiled literal pattern: its text and whether case is ignored. *)
Definition occurs_at (pat : string * bool) (s : string) : bool :=
  if pat.2 then String.prefix (lowercase pat.1) (lowercase s)
  else String.prefix pat.1 s.

(** Replace every occurrence, left to right, skipping over each one. *)
Fixpoint replace_from (pat : string * bool) (f : string -> string)
    (skip : nat) (s : string) : string :=
  match s with
  | EmptyString => EmptyString
  | String a rest =>
      match skip with
      | S k => replace_from pat f k rest
      | O =>
          if occurs_at pat s
          then f (String.substring 0 (String.length pat.1) s)
               +:+ replace_from pat f (String.length pat.1 - 1) rest
          else String a (replace_from pat f 0 rest)
      end
  end.

(** A regular-expression engine for nonempty literal patterns; every
    other pattern is turned down as a syntax error. *)
#[export] Instance literals : RegExpEngine :=
  {| RegExp := string * bool;
     RegExp_new := fun pattern flags =>
       match pattern with
       | JStr p =>
           if literal p && negb (String.eqb p "")
           then Normal (p, includes flags "i")
           else Throw (mkError "SyntaxError" None
                         ("Invalid regular expression: /" +:+ p +:+ "/"))
       | _ => Throw (mkError "SyntaxError" None "Invalid regular expression")
       end;
     String_match := fun line pat => includes (if pat.2 then lowercase line else line)
                                              (if pat.2 then lowercase pat.1 else pat.1);
     String_replace := fun line pat f => replace_from pat f 0 line |}.

(** Strings of decimal digits are read as the number they spell; every
    other string counts as no number. *)
#[export] Instance numbers : Numbers :=
  {| positive_number := fun s =>
       match digits s 0 with
       | Some n => (0 <? n)%Z
       | None => false
       end |}.
End Sim.

(** ** Further concrete machines *)

Module Cases.
(** A model that cannot be reached. *)
Definition offline : Anthropic :=
  {| messages_create := fun _ _ =>
       Throw (mkError "APIConnectionError" None "Connection error.") |}.

(** A model that only ever asks to read. *)
Definition reader : Anthropic :=
  {| messages_create := fun _ messages =>
       match messages with
       | [_] => Normal (mkResponse
                          [ToolUseBlock "toolu_r1" "read_file" {["path" := JStr "README.md"]};
                           ToolUseBlock "toolu_r2" "list_dir" {["path" := JStr "src"]}])
       | _ => Normal (mkResponse [TextBlock "Read."])
       end |}.

(** A command with a NUL byte at its end. *)
Definition nul_command : string := "exit 0" +:+ String "000"%char "".

(** A model that asks for a command that holds a NUL byte, and for a
    file after it. *)
Definition careless : Anthropic :=
  {| messages_create := fun _ messages =>
       match messages with
       | [_] => Normal (mkResponse
                          [TextBlock "Running it.";
                           ToolUseBlock "toolu_n1" "bash" {["command" := JStr nul_command]};
                           ToolUseBlock "toolu_n2" "read_file" {["path" := JStr "README.md"]}])
       | _ => Normal (mkResponse [TextBlock "Ran."])
       end |}.

(** Every reply ends the turn, as far as [stop_reason] goes. *)
Definition end_turn : StopReason := {| stop_reason := fun _ => "end_turn" |}.

(** A project with a hidden directory and a dependency cache, each
    holding the word that [src/a.ts] holds too. *)
Definition cluttered : node :=
  Dir [("home", Dir [("dev", Dir [("project",
    Dir [(".git", Dir [("config", File "token")]);
         ("node_modules", Dir [("dep", Dir [("index.js", File "token")])]);
         ("src", Dir [("a.ts", File "token"); ("b.md", File "token")])])])])].

(** The same project, with nothing in its hidden directory and nothing
    in its dependency cache. *)
Definition tidy : node :=
  Dir [("home", Dir [("dev", Dir [("project",
    Dir [(".git", Dir []);
         ("node_modules", Dir []);
         ("src", Dir [("a.ts", File "token"); ("b.md", File "token")])])])])].
End Cases.

(** * The vocabulary of the properties *)

(** Every exception of the file system names an errno or an argument. *)
Definition fs_message (m : string) : bool :=
  String.prefix "E" m || String.prefix "The " m.

(** [typeof v === "string"] *)
Definition is_string (v : JSValue) : bool :=
  match v with JStr _ => true | _ => false end.

(** The arguments carry every required property of the named tool as a
    string, as its schema declares; a name without a descriptor has no
    schema to break. *)
Definition well_formed (tools : list Tool) (name : string) (input : Obj) : bool :=
  match List.find (fun t => String.eqb (tool_name t) name) tools with
  | Some t => forallb (fun k => is_string (get input k)) (required t)
  | None => true
  end.

(** The text [bash] resolves with once the child has closed. *)
Definition closed_text (code : option Z) (stdout stderr : string) : string :=
  "Exit code: " +:+ exitCode code +:+ nl +:+ stdout
  +:+ (if String.eqb stderr "" then "" else nl +:+ "Stderr: " +:+ stderr).

(** The text [write_file] answers with when [content] is absent. *)
Definition required_content : string :=
  "Error: content parameter is required but was not provided".

(** A tool-invocation request: identifier, tool name, arguments. *)
Abbreviation Request := (string * string * Obj)%type.

(** The requests of a response, in the order of its blocks. *)
Definition tool_requests (bs : list ContentBlock) : list Request :=
  omap (fun b => match b with
                 | ToolUseBlock id name input => Some (id, name, input)
                 | _ => None
                 end) bs.

(** The event of running a request. *)
Definition execution (rq : Request) : Event := ToolExecution rq.1.1 rq.1.2 rq.2.

(** Running the requests one after the other, each on the file system
    the previous one left, until one of them throws: the result blocks or
    the exception, the file system left behind, and the requests that
    were started. *)
Fixpoint run_tools {rt : Runtime} (requests : list Request) (w : node)
    : completion (list ContentBlock) * node * list Request :=
  match requests with
  | [] => (Normal [], w, [])
  | rq :: rest =>
      match Modular.executeTool rq.1.2 rq.2 w with
      | (Normal text, w') =>
          match run_tools rest w' with
          | (Normal results, w'', started) =>
              (Normal (ToolResultBlock rq.1.1 text :: results), w'', rq :: started)
          | (Throw e, w'', started) => (Throw e, w'', rq :: started)
          end
      | (Throw e, w') => (Throw e, w', [rq])
      end
  end.

(** The state a run ended in, however it ended. *)
Definition state_of (o : Agent.Outcome) : Agent.State :=
  match o with
  | Agent.Returned s | Agent.Thrown _ s | Agent.OutOfFuel s => s
  end.

(** Is the event a request to the model? *)
Definition is_request (ev : Event) : bool :=
  match ev with ModelRequest _ => true | ToolExecution _ _ _ => false end.

(** How many model requests a trace records. *)
Definition requests_issued (tr : list Event) : N :=
  N.of_nat (length (List.filter is_request tr)).

(** No field of [a] exceeds the same field of [b]. *)
Definition stats_le (a b : SessionStats.t) : Prop :=
  (SessionStats.totalTokens a ≤ SessionStats.totalTokens b)%N
  ∧ (SessionStats.requestCount a ≤ SessionStats.requestCount b)%N
  ∧ (SessionStats.maxContextTokens a ≤ SessionStats.maxContextTokens b)%N
  ∧ (SessionStats.currentConversationTokens a
     ≤ SessionStats.currentConversationTokens b)%N.

(** *** What a search is to report

    The definitions of this part say which files a search is to read and
    which lines it is to print, as the tool is described: a single file
    is searched directly, a directory recursively unless told otherwise,
    hidden directories and the dependency cache are skipped by name, and
    an extension list filters the files. They are written without the
    functions of [Enhanced]. *)

(** A directory name the search stays out of: it starts with a dot, or
    it is the dependency cache. *)
Definition kept_out (name : string) : bool :=
  match name with
  | String first _ => Ascii.eqb first "."%char || bool_decide (name = "node_modules")
  | EmptyString => false
  end.

(** The files below a directory that a search is to read: the regular
    files among its entries, and, when the search is recursive, the
    files to be read below the subdirectories it does not stay out of. *)
Inductive scanned_in (recursive : JSValue)
    : Path → list (string * node) → Path → string → Prop :=
  | scanned_here dirPath entries name content :
      (name, File content) ∈ entries →
      scanned_in recursive dirPath entries (dirPath ++ [name]) content
  | scanned_below dirPath entries name sub filePath content :
      (name, Dir sub) ∈ entries →
      truthy recursive = true →
      kept_out name = false →
      scanned_in recursive (dirPath ++ [name]) sub filePath content →
      scanned_in recursive dirPath entries filePath content.

(** The files a search of [targetPath] is to read. *)
Definition scanned (recursive : JSValue) (targetPath : Path) (root : node)
    (filePath : Path) (content : string) : Prop :=
  match walk targetPath root with
  | Found (File c) => filePath = targetPath ∧ content = c
  | Found (Dir entries) =>
      scanned_in recursive (unslashed targetPath) entries filePath content
  | _ => False
  end.

(** What a search can see of a node: the directories it stays out of
    look empty to it. *)
Fixpoint visible (recursive : JSValue) (n : node) : node :=
  match n with
  | File content => File content
  | Dir entries =>
      Dir ((fix each (entries : list (string * node)) : list (string * node) :=
              match entries with
              | [] => []
              | (name, child) :: rest =>
                  (name,
                   match child with
                   | File content => File content
                   | Dir _ =>
                       if truthy recursive && negb (kept_out name)
                       then visible recursive child
                       else Dir []
                   end) :: each rest
              end) entries)
  end.

(** What a search can see of one entry of a directory. *)
Definition view (recursive : JSValue) (name : string) (child : node) : node :=
  match child with
  | File content => File content
  | Dir _ =>
      if truthy recursive && negb (kept_out name)
      then visible recursive child
      else Dir []
  end.

Section SearchOutput.
Context {rt : Runtime} {col : Colorize} {re : RegExpEngine} {nu : Numbers}.

(** The extension list lets a file with this extension through: an empty
    list or string, and a value with no length above zero, let every
    file through. *)
Definition admits (fileExtensions : JSValue) (extension : string) : Prop :=
  match fileExtensions with
  | JArr l => l = [] ∨ JStr extension ∈ l
  | JStr s => s = "" ∨ ∃ before after, s = before +:+ extension +:+ after
  | JObj fields =>
      greater_than_zero (default JUndefined (own "length" fields)) = Normal false
  | _ => True
  end.

(** [path:line_number:line_with_match], as the search prints it. *)
Definition output_line (regex : RegExp) (filePath : Path) (lineNumber : nat)
    (line : string) : string :=
  colorize_file (relative cwd filePath) +:+ ":"
  +:+ colorize_info (pretty lineNumber) +:+ ":"
  +:+ String_replace line regex colorize_highlight.

(** [r] is the output line of a matching line of the file, which the
    extension list lets through. *)
Definition hit (regex : RegExp) (fileExtensions : JSValue) (filePath : Path)
    (content r : string) : Prop :=
  admits fileExtensions (extname filePath)
  ∧ ∃ (index : nat) (line : string),
      split_on "010"%char content !! index = Some line
      ∧ String_match line regex = true
      ∧ r = output_line regex filePath (S index) line.

(** The output lines of the matching lines of a file, in the order of
    the lines, counted from [first]. *)
Fixpoint matching_lines (regex : RegExp) (filePath : Path) (first : nat)
    (lines : list string) : list string :=
  match lines with
  | [] => []
  | line :: rest =>
      (if String_match line regex then [output_line regex filePath first line] else [])
      ++ matching_lines regex filePath (S first) rest
  end.

(** What a file contributes to the report. *)
Definition file_report (regex : RegExp) (fileExtensions : JSValue)
    (filePath : Path) (content : string) (lines : list string) : Prop :=
  (admits fileExtensions (extname filePath) →
   lines = matching_lines regex filePath 1 (split_on "010"%char content))
  ∧ (¬ admits fileExtensions (extname filePath) → lines = []).

(** The report on a directory: entry by entry in the order of the
    listing, the report on a subdirectory in the place of its entry. *)
Inductive reported (regex : RegExp) (fileExtensions recursive : JSValue)
    : Path → list (string * node) → list string → Prop :=
  | reported_end dirPath :
      reported regex fileExtensions recursive dirPath [] []
  | reported_file dirPath name content rest here lines :
      file_report regex fileExtensions (dirPath ++ [name]) content here →
      reported regex fileExtensions recursive dirPath rest lines →
      reported regex fileExtensions recursive dirPath
               ((name, File content) :: rest) (here ++ lines)
  | reported_entered dirPath name sub rest below lines :
      truthy recursive = true →
      kept_out name = false →
      reported regex fileExtensions recursive (dirPath ++ [name]) sub below →
      reported regex fileExtensions recursive dirPath rest lines →
      reported regex fileExtensions recursive dirPath
               ((name, Dir sub) :: rest) (below ++ lines)
  | reported_passed dirPath name sub rest lines :
      truthy recursive = false ∨ kept_out name = true →
      reported regex fileExtensions recursive dirPath rest lines →
      reported regex fileExtensions recursive dirPath
               ((name, Dir sub) :: rest) lines.

(** The report on the target of a search. *)
Definition report (regex : RegExp) (fileExtensions recursive : JSValue)
    (targetPath : Path) (root : node) (lines : list string) : Prop :=
  match walk targetPath root with
  | Found (File content) => file_report regex fileExtensions targetPath content lines
  | Found (Dir entries) =>
      reported regex fileExtensions recursive (unslashed targetPath) entries lines
  | _ => False
  end.

(** The text a search answers with. *)
Definition search_text (shown : string) (lines : list string) : string :=
  match lines with
  | [] => colorize_warning ("No matches found for pattern: " +:+ shown)
  | _ =>
      colorize_success ("Found " +:+ pretty (length lines)
                        +:+ " matches for pattern: " +:+ shown)
      +:+ nl +:+ nl +:+ join nl lines
  end.
End SearchOutput.

(** *** Paths, transcripts and runs *)

(** A path component as a normalised path holds it: not empty, not [.]
    or [..], and free of separators. *)
Definition clean (c : string) : bool :=
  negb (String.eqb c "") && negb (String.eqb c ".") && negb (String.eqb c "..")
  && negb (has_char "/"%char c).


Definition other (r : Role) : Role :=
  match r with user => assistant | assistant => user end.

Definition role_eqb (a b : Role) : bool :=
  match a, b with
  | user, user | assistant, assistant => true
  | _, _ => false
  end.

(** The turns alternate between the two roles, starting with [next]. *)
Fixpoint alternates (next : Role) (ms : list MessageParam) : bool :=
  match ms with
  | [] => true
  | m :: rest => role_eqb (role m) next && alternates (other next) rest
  end.

(** A request that can change the file system. *)
Definition may_write (rq : Request) : bool :=
  String.eqb rq.1.2 "write_file" || String.eqb rq.1.2 "bash".

(** A [write_file] request that carries no content. *)
Definition lacks_content (rq : Request) : bool :=
  String.eqb rq.1.2 "write_file" && nullish (get rq.2 "content").

(** What the modularized loop and the single-file loop have in common. *)
Definition without_statistics (o : Agent.Outcome) : SingleFileAgent.Outcome :=
  match o with
  | Agent.Returned s =>
      SingleFileAgent.Returned
        (SingleFileAgent.mkState (Agent.messages s) (Agent.disk s) (Agent.trace s))
  | Agent.Thrown e s =>
      SingleFileAgent.Thrown e
        (SingleFileAgent.mkState (Agent.messages s) (Agent.disk s) (Agent.trace s))
  | Agent.OutOfFuel s =>
      SingleFileAgent.OutOfFuel
        (SingleFileAgent.mkState (Agent.messages s) (Agent.disk s) (Agent.trace s))
  end.

Section Steps.
Context {rt : Runtime} {api : Anthropic} {tk : Tokenizer}.

(** The state one iteration leaves when the response asked for tools
    and each of them returned: [results] are their answers and [w] is the
    file system they left. *)
Definition after_tools (s : Agent.State) (response : Response)
    (results : list ContentBlock) (w : node) : Agent.State :=
  Agent.mkState
    (Agent.messages s
     ++ [mkMessage assistant (Blocks (response_content response))]
     ++ [mkMessage user (Blocks results)])
    (Agent.loopCount s + 1)
    (Utils.updateContextUsage
       (Utils.calculateTokenUsage (Agent.messages s) Agent.systemPrompt response)
       (Agent.bumpRequestCount (Agent.sessionStats s)))
    w
    (Agent.trace s ++ [ModelRequest (Agent.messages s)]
     ++ map execution (tool_requests (response_content response))).

(** The state in which the exception of a tool leaves the run: [started]
    are the requests up to the one that threw, [w] the file system at
    that point. *)
Definition after_abort (s : Agent.State) (response : Response)
    (started : list Request) (w : node) : Agent.State :=
  Agent.mkState (Agent.messages s) (Agent.loopCount s + 1)
    (Utils.updateContextUsage
       (Utils.calculateTokenUsage (Agent.messages s) Agent.systemPrompt response)
       (Agent.bumpRequestCount (Agent.sessionStats s)))
    w
    (Agent.trace s ++ [ModelRequest (Agent.messages s)] ++ map execution started).

(** The state the last iteration leaves, after a response without tools. *)
Definition after_answer (s : Agent.State) (response : Response) : Agent.State :=
  Agent.mkState
    (Agent.messages s ++ [mkMessage assistant (Blocks (response_content response))])
    (Agent.loopCount s + 1)
    (Utils.updateContextUsage
       (Utils.calculateTokenUsage (Agent.messages s) Agent.systemPrompt response)
       (Agent.bumpRequestCount (Agent.sessionStats s)))
    (Agent.disk s)
    (Agent.trace s ++ [ModelRequest (Agent.messages s)]).

(** The state in which a failed request to the model leaves the run. *)
Definition after_failure (s : Agent.State) : Agent.State :=
  Agent.mkState (Agent.messages s) (Agent.loopCount s + 1)
    (Agent.bumpRequestCount (Agent.sessionStats s)) (Agent.disk s)
    (Agent.trace s ++ [ModelRequest (Agent.messages s)]).
End Steps.

(** The identifiers of the tool results the user turns carry, in order. *)
Definition result_ids (ms : list MessageParam) : list string :=
  ms ≫= (fun m =>
    match role m, content m with
    | user, Blocks bs =>
        omap (fun b => match b with
                       | ToolResultBlock id _ => Some id
                       | _ => None
                       end) bs
    | _, _ => []
    end).

(** The identifiers of the tools a trace shows as executed, in order. *)
Definition execution_ids (tr : list Event) : list string :=
  omap (fun ev => match ev with
                  | ToolExecution id _ _ => Some id
                  | ModelRequest _ => None
                  end) tr.

(** * Properties *)

Lemma append_empty_r (s : string) : s +:+ "" = s.
Proof.
  induction s as [|a s IH]; [done|].
  change (String a (s +:+ "") = String a s). by rewrite IH.
Qed.

Lemma prefix_append (p s : string) : String.prefix p (p +:+ s) = true.
Proof.
  induction p as [|a p IH].
  - by destruct s.
  - change (String.prefix (String a p) (String a (p +:+ s)) = true).
    cbn [String.prefix]. by destruct (ascii_dec a a).
Qed.

(** ** Association lists and the file system *)

Lemma assoc_put {A} (k : string) (v : A) es : assoc k (put k v es) = Some v.
Proof.
  induction es as [|[k' v'] es IH]; simpl.
  - by rewrite String.eqb_refl.
  - destruct (String.eqb k k') eqn:E; simpl.
    + by rewrite String.eqb_refl.
    + by rewrite E.
Qed.

Lemma assoc_put_ne {A} (k k' : string) (v : A) es :
  k' ≠ k → assoc k' (put k v es) = assoc k' es.
Proof.
  intros Hne. induction es as [|[k0 v0] es IH]; simpl.
  - destruct (String.eqb_spec k' k); congruence.
  - destruct (String.eqb_spec k k0) as [->|]; simpl.
    + destruct (String.eqb_spec k' k0); congruence.
    + by rewrite IH.
Qed.

(** A successful [store] leaves a regular file with the new content at
    the path it was given. *)
Lemma store_walk whole p s n n' :
  store whole p s n = Normal n' → walk p n' = Found (File s).
Proof.
  revert n n'. induction p as [|c rest IH]; intros n n' Hs.
  - simpl in *. destruct n; by inversion Hs.
  - cbn [store] in Hs. destruct n as [|es]; [done|].
    destruct (is_slash (c :: rest)) eqn:Hsl; [done|].
    destruct (assoc c es) as [child|] eqn:Hc.
    + destruct (store whole rest s child) as [child'|] eqn:Hr; [|done].
      inversion Hs; subst. cbn [walk]. rewrite Hsl, assoc_put. eauto.
    + destruct rest as [|c' rest']; [|by destruct (is_slash (c' :: rest'))].
      inversion Hs; subst. cbn [walk]. by rewrite Hsl, assoc_put.
Qed.

Lemma readFileSync_after_write p data s w w' :
  data = JStr s → writeFileSync p data w = Normal w' → readFileSync p w' = Normal s.
Proof.
  intros -> Hw. unfold writeFileSync in Hw. unfold readFileSync.
  by rewrite (store_walk _ _ _ _ _ Hw).
Qed.

Lemma store_message whole p s n e :
  store whole p s n = Throw e → fs_message (message e) = true.
Proof.
  revert n. induction p as [|c rest IH]; intros n Hs.
  - simpl in Hs. destruct n; by inversion Hs.
  - cbn [store] in Hs. destruct n as [|es]; [by inversion Hs|].
    destruct (is_slash (c :: rest)); [by inversion Hs|].
    destruct (assoc c es) as [child|].
    + destruct (store whole rest s child) eqn:Hr; [done|].
      inversion Hs; subst. eauto.
    + destruct rest; [by inversion Hs|].
      destruct (is_slash _); by inversion Hs.
Qed.

Lemma writeFileSync_message p data w e :
  writeFileSync p data w = Throw e → fs_message (message e) = true.
Proof.
  destruct data; simpl; try (intros [= <-]; reflexivity).
  apply store_message.
Qed.

Lemma resolvePath_message {rt : Runtime} v e :
  resolvePath v = Throw e → fs_message (message e) = true.
Proof. destruct v; simpl; intros [= <-]; reflexivity. Qed.

(** ** The Tool Executor *)

Ltac name_cases name :=
  destruct (String.eqb_spec name "read_file") as [->|?];
  [|destruct (String.eqb_spec name "write_file") as [->|?];
    [|destruct (String.eqb_spec name "list_dir") as [->|?];
      [|destruct (String.eqb_spec name "bash") as [->|?]]]].

Ltac eval_names :=
  repeat match goal with
         | |- context [String.eqb ?a ?b] =>
             let v := eval vm_compute in (String.eqb a b) in
             match v with true => idtac | false => idtac end;
             change (String.eqb a b) with v; cbv iota
         end.

Ltac run_tool :=
  unfold Modular.executeTool, SingleFile.executeTool; eval_names;
  unfold try_catch, bindM, raise, reading, writing, ret.

(** Every tool but [bash] returns a text, whatever it is given. *)
Lemma executeTool_returns {rt : Runtime} name input w :
  name ≠ "bash" → ∃ text w', Modular.executeTool name input w = (Normal text, w').
Proof.
  intros Hname. unfold Modular.executeTool.
  destruct (String.eqb_spec name "bash") as [|_]; [done|].
  repeat match goal with |- context [String.eqb name ?s] => destruct (String.eqb name s) end.
  - unfold try_catch, bindM, raise, reading, ret.
    destruct (resolvePath _); [destruct (readFileSync _ _)|]; eauto.
  - unfold try_catch, bindM, raise, writing, ret.
    destruct (nullish _); [eauto|].
    destruct (resolvePath _); [destruct (writeFileSync _ _ _)|]; eauto.
    destruct (ToString _); eauto.
  - unfold try_catch, bindM, raise, reading, ret.
    destruct (resolvePath _); [destruct (readdirSync _ _)|]; eauto.
  - unfold ret. eauto.
Qed.

Lemma closed_text_no_marker code out err :
  String.prefix "Error: " (closed_text code out err) = false.
Proof. reflexivity. Qed.

(** The cases of [executeTool], one equation each. *)

Lemma read_file_eq {rt : Runtime} input w :
  Modular.executeTool "read_file" input w =
  match resolvePath (get input "path") with
  | Throw e => (Normal ("Error: " +:+ message e), w)
  | Normal p =>
      match readFileSync p w with
      | Normal text => (Normal text, w)
      | Throw e => (Normal ("Error: " +:+ message e), w)
      end
  end.
Proof.
  run_tool. destruct (resolvePath _); [|done]. by destruct (readFileSync _ _).
Qed.

Lemma write_file_eq {rt : Runtime} input w :
  Modular.executeTool "write_file" input w =
  if nullish (get input "content") then (Normal required_content, w)
  else match resolvePath (get input "path") with
       | Throw e => (Normal ("Error: " +:+ message e), w)
       | Normal p =>
           match writeFileSync p (get input "content") w with
           | Normal w' =>
               match ToString (get input "path") with
               | Normal shown => (Normal ("Written to " +:+ shown), w')
               | Throw e => (Normal ("Error: " +:+ message e), w')
               end
           | Throw e => (Normal ("Error: " +:+ message e), w)
           end
       end.
Proof.
  run_tool. destruct (nullish _); [done|].
  destruct (resolvePath _); [|done]. destruct (writeFileSync _ _ _); [|done].
  by destruct (ToString _).
Qed.

Lemma list_dir_eq {rt : Runtime} input w :
  Modular.executeTool "list_dir" input w =
  match resolvePath (get input "path") with
  | Throw e => (Normal ("Error: " +:+ message e), w)
  | Normal p =>
      match readdirSync p w with
      | Normal entries =>
          (Normal (join nl (map (fun e => if isDirectory e then ent_name e +:+ "/"
                                          else ent_name e) entries)), w)
      | Throw e => (Normal ("Error: " +:+ message e), w)
      end
  end.
Proof.
  run_tool. destruct (resolvePath _); [|done]. by destruct (readdirSync _ _).
Qed.

Lemma bash_eq {rt : Runtime} input w :
  Modular.executeTool "bash" input w =
  match spawn (get input "command") w with
  | (Closed code out err, w') => (Normal (closed_text code out err), w')
  | (SpawnFailed e, w') => (Normal ("Error: " +:+ message e), w')
  | (SpawnThrew e, w') => (Throw e, w')
  end.
Proof. reflexivity. Qed.

Lemma unlisted_name (name : string) :
  name ∉ map tool_name Modular.tools →
  String.eqb name "read_file" = false ∧ String.eqb name "write_file" = false
  ∧ String.eqb name "list_dir" = false ∧ String.eqb name "bash" = false.
Proof.
  simpl. rewrite !not_elem_of_cons. intros (? & ? & ? & ? & _).
  by rewrite !String.eqb_neq.
Qed.

Lemma unknown_tool_text_eq {rt : Runtime} (name : string) (input : Obj) (w : node) :
  name ∉ map tool_name Modular.tools →
  Modular.executeTool name input w = (Normal ("Unknown tool: " +:+ name), w)
  ∧ SingleFile.executeTool name input w = (Normal ("Unknown tool: " +:+ name), w).
Proof.
  intros Hname. destruct (unlisted_name _ Hname) as (E1 & E2 & E3 & E4).
  unfold Modular.executeTool, SingleFile.executeTool.
  rewrite E1, E2, E3, E4. done.
Qed.

(** C10: a tool name outside the compiled-in tool set makes [executeTool],
    in the modularized and in the single-file variant alike, return the
    text "Unknown tool: " followed by the name; nothing is thrown and the
    text does not start with the "Error:" marker of the other failures. *)
Theorem unknown_tool_is_named {rt : Runtime} (name : string) (input : Obj) (w : node) :
  name ∉ map tool_name Modular.tools →
  Modular.executeTool name input w = (Normal ("Unknown tool: " +:+ name), w)
  ∧ SingleFile.executeTool name input w = (Normal ("Unknown tool: " +:+ name), w)
  ∧ String.prefix "Error:" ("Unknown tool: " +:+ name) = false.
Proof.
  intros Hname. destruct (unknown_tool_text_eq name input w Hname) as [-> ->].
  done.
Qed.

Lemma unknown_tool_is_named_witness :
  ("frobnicate" ∉ map tool_name Modular.tools)
  ∧ Modular.executeTool (rt := Sim.runtime) "frobnicate" ∅ Sim.disk
    = (Normal "Unknown tool: frobnicate", Sim.disk).
Proof.
  assert (H : "frobnicate" ∉ map tool_name Modular.tools).
  { simpl. rewrite !not_elem_of_cons. repeat split; try discriminate.
    apply not_elem_of_nil. }
  split; [exact H|].
  exact (proj1 (unknown_tool_is_named (rt := Sim.runtime) "frobnicate" ∅ Sim.disk H)).
Defined.

(** C6, on the code: what [bash] answers follows what comes of [spawn].
    When the child closes, the text is the exit code line, the collected
    standard output and, only for a nonempty standard error, a section
    labelled "Stderr:"; it never starts with the error marker, whatever
    the exit code, and without standard error it is exactly
    "Exit code: ", the code, a line break and the standard output. A
    child that could not be started is reported as "Error: " and the
    message. But when the call of [spawn] itself throws, [bash] returns
    no result at all: the exception leaves [executeTool], where the
    claim asks for a result in every case and for a textual error when
    the process cannot be spawned. *)
Theorem bash_rejects_when_spawn_throws {rt : Runtime} (input : Obj) (w : node) :
  match spawn (get input "command") w with
  | (Closed code out err, w') =>
      Modular.executeTool "bash" input w = (Normal (closed_text code out err), w')
      ∧ String.prefix "Error" (closed_text code out err) = false
      ∧ (err = "" →
         closed_text code out err = "Exit code: " +:+ exitCode code +:+ nl +:+ out)
  | (SpawnFailed e, w') =>
      Modular.executeTool "bash" input w = (Normal ("Error: " +:+ message e), w')
  | (SpawnThrew e, w') =>
      Modular.executeTool "bash" input w = (Throw e, w')
  end.
Proof.
  rewrite bash_eq.
  destruct (spawn (get input "command") w) as [[code out err|e|e] w']; [|done|done].
  split; [done|]. split; [done|].
  intros ->. unfold closed_text. simpl String.eqb. cbv iota.
  by rewrite append_empty_r.
Qed.

Lemma bash_rejects_when_spawn_throws_witness :
  Modular.executeTool (rt := Sim.runtime) "bash"
    {["command" := JStr Cases.nul_command]} Sim.disk
  = (Throw (Sim.null_bytes Cases.nul_command), Sim.disk)
  ∧ Modular.executeTool (rt := Sim.runtime) "bash" {["command" := JStr "exit 7"]} Sim.disk
    = (Normal ("Exit code: 7" +:+ nl), Sim.disk)
  ∧ Modular.executeTool (rt := Sim.runtime) "bash" {["command" := JStr "exit 0"]} Sim.disk
    = (Normal ("Exit code: 0" +:+ nl), Sim.disk)
  ∧ Modular.executeTool (rt := Sim.runtime) "bash"
      {["command" := JStr "no-such-shell"]} Sim.disk
    = (Normal "Error: spawn bash ENOENT", Sim.disk).
Proof.
  split; [|split; [|split]].
  - exact (bash_rejects_when_spawn_throws (rt := Sim.runtime)
             {["command" := JStr Cases.nul_command]} Sim.disk).
  - exact (proj1 (bash_rejects_when_spawn_throws (rt := Sim.runtime)
                    {["command" := JStr "exit 7"]} Sim.disk)).
  - exact (proj1 (bash_rejects_when_spawn_throws (rt := Sim.runtime)
                    {["command" := JStr "exit 0"]} Sim.disk)).
  - exact (bash_rejects_when_spawn_throws (rt := Sim.runtime)
             {["command" := JStr "no-such-shell"]} Sim.disk).
Defined.

(** C4, as amended: when [write_file] has confirmed the write of a string
    content to a path, [read_file] on the same path, under the same
    working directory and on the file system the write left behind,
    returns exactly that content. *)
Theorem write_then_read {rt : Runtime} (path content : string)
    (written read : Obj) (w w' : node) :
  get written "path" = JStr path →
  get written "content" = JStr content →
  get read "path" = JStr path →
  Modular.executeTool "write_file" written w = (Normal ("Written to " +:+ path), w') →
  Modular.executeTool "read_file" read w' = (Normal content, w').
Proof.
  intros Hp Hc Hr. rewrite write_file_eq, read_file_eq, Hp, Hc, Hr.
  simpl nullish. simpl ToString. cbv iota.
  destruct (resolvePath (JStr path)) as [p|e]; [|by intros [=]].
  destruct (writeFileSync p (JStr content) w) as [w1|e] eqn:Hw.
  - intros [= <-]. by rewrite (readFileSync_after_write _ _ _ _ _ eq_refl Hw).
  - by intros [=].
Qed.

Lemma write_then_read_witness :
  Modular.executeTool (rt := Sim.runtime) "read_file" {["path" := JStr "notes.txt"]}
    (Modular.executeTool (rt := Sim.runtime) "write_file"
       (<["content" := JStr "remember"]> {["path" := JStr "notes.txt"]}) Sim.disk).2
  = (Normal "remember",
     (Modular.executeTool (rt := Sim.runtime) "write_file"
        (<["content" := JStr "remember"]> {["path" := JStr "notes.txt"]}) Sim.disk).2).
Proof.
  apply (write_then_read (rt := Sim.runtime) "notes.txt" "remember"
           (<["content" := JStr "remember"]> {["path" := JStr "notes.txt"]})
           {["path" := JStr "notes.txt"]} Sim.disk);
    vm_compute; reflexivity.
Defined.

(** C4 as stated fails: a path whose parent directory does not exist is
    not written, and the read that follows reports the missing file. *)
Lemma write_then_read_needs_a_successful_write :
  ¬ (∀ (rt : Runtime) (path content : string) (w : node),
       (Modular.executeTool "read_file" {["path" := JStr path]}
          (Modular.executeTool "write_file"
             (<["content" := JStr content]> {["path" := JStr path]}) w).2).1
       = Normal content).
Proof.
  intros H. specialize (H Sim.runtime "nodir/a.txt" "x" Sim.disk).
  vm_compute in H. discriminate H.
Qed.

(** C5, as amended, for the modularized variant: with [content] absent
    ([undefined] or [null]) [write_file] returns the required-field error,
    a text no exception of the path or file-system layer produces, and
    leaves the file system as it was; with a string content, when the
    write raises nothing, the file at the resolved path holds exactly that
    content and the text is "Written to " and the path; when resolving or
    writing raises, the text is "Error: " and the message and nothing is
    changed. *)
Theorem write_file_contract {rt : Runtime} (input : Obj) (w : node) :
  (nullish (get input "content") = true →
     Modular.executeTool "write_file" input w = (Normal required_content, w))
  ∧ (∀ p data e,
       resolvePath data = Throw e ∨ writeFileSync p data w = Throw e →
       "Error: " +:+ message e ≠ required_content)
  ∧ (∀ path content p w',
       get input "path" = JStr path → get input "content" = JStr content →
       resolvePath (JStr path) = Normal p →
       writeFileSync p (JStr content) w = Normal w' →
       Modular.executeTool "write_file" input w = (Normal ("Written to " +:+ path), w')
       ∧ readFileSync p w' = Normal content)
  ∧ (∀ e,
       nullish (get input "content") = false →
       resolvePath (get input "path") = Throw e
       ∨ (∃ p, resolvePath (get input "path") = Normal p
               ∧ writeFileSync p (get input "content") w = Throw e) →
       Modular.executeTool "write_file" input w = (Normal ("Error: " +:+ message e), w)).
Proof.
  split; [|split; [|split]].
  - intros Hn. by rewrite write_file_eq, Hn.
  - intros p data e H Heq.
    assert (Hm : fs_message (message e) = true).
    { destruct H; eauto using resolvePath_message, writeFileSync_message. }
    cbv [String.append required_content] in Heq. injection Heq as Heq.
    rewrite Heq in Hm. done.
  - intros path content p w' Hp Hc Hres Hw. split.
    + rewrite write_file_eq, Hc, Hp. simpl nullish. cbv iota. by rewrite Hres, Hw.
    + exact (readFileSync_after_write p (JStr content) content w w' eq_refl Hw).
  - intros e Hn H. rewrite write_file_eq, Hn.
    destruct H as [H | (p & Hp & Hw)].
    + by rewrite H.
    + by rewrite Hp, Hw.
Qed.

Lemma write_file_contract_witness :
  Modular.executeTool (rt := Sim.runtime) "write_file" {["path" := JStr "a.txt"]} Sim.disk
  = (Normal required_content, Sim.disk)
  ∧ (Modular.executeTool (rt := Sim.runtime) "write_file"
       (<["content" := JStr "fresh"]> {["path" := JStr "README.md"]}) Sim.disk).1
    = Normal "Written to README.md".
Proof.
  pose proof (write_file_contract (rt := Sim.runtime) {["path" := JStr "a.txt"]} Sim.disk)
    as (Habsent & _).
  pose proof (write_file_contract (rt := Sim.runtime)
                (<["content" := JStr "fresh"]> {["path" := JStr "README.md"]}) Sim.disk)
    as (_ & _ & Hgiven & _).
  split.
  - apply Habsent. reflexivity.
  - destruct (Hgiven "README.md" "fresh" ["home"; "dev"; "project"; "README.md"]
                (Modular.executeTool (rt := Sim.runtime) "write_file"
                   (<["content" := JStr "fresh"]> {["path" := JStr "README.md"]})
                   Sim.disk).2) as [-> _]; vm_compute; reflexivity.
Defined.

(** C5 as stated fails twice over. In the modularized variant a content
    that is present is not always written: below a directory that does
    not exist no file is created and the text is an error. And the
    single-file variant has no required-field check: without [content]
    its text is whatever the file system raises for the absent value. *)
Lemma write_file_claim_fails :
  ¬ (∀ (rt : Runtime) (path content : string) (p : Path) (w : node),
       resolvePath (JStr path) = Normal p →
       ∃ w', Modular.executeTool "write_file"
               (<["content" := JStr content]> {["path" := JStr path]}) w
             = (Normal ("Written to " +:+ path), w')
             ∧ readFileSync p w' = Normal content)
  ∧ (SingleFile.executeTool (rt := Sim.runtime) "write_file"
       {["path" := JStr "a.txt"]} Sim.disk).1
    ≠ Normal required_content.
Proof.
  split.
  - intros H.
    destruct (H Sim.runtime "nodir/a.txt" "x" ["home"; "dev"; "project"; "nodir"; "a.txt"]
                Sim.disk eq_refl) as (w' & Hrun & _).
    vm_compute in Hrun. discriminate Hrun.
  - vm_compute. discriminate.
Qed.

(** C9, as amended: the single-file and the modularized [executeTool]
    return the same text and leave the same file system for every name
    and argument object, except for [write_file] called with [content]
    absent ([undefined] or [null]), where only the modularized variant
    answers with the required-field error before touching the file
    system. *)
Theorem variants_agree_when_content_given {rt : Runtime}
    (name : string) (input : Obj) (w : node) :
  (name = "write_file" → nullish (get input "content") = false) →
  SingleFile.executeTool name input w = Modular.executeTool name input w.
Proof.
  intros Hc. unfold SingleFile.executeTool, Modular.executeTool.
  destruct (String.eqb name "read_file"); [done|].
  destruct (String.eqb_spec name "write_file") as [Hw|_]; [|done].
  by rewrite (Hc Hw).
Qed.

Lemma variants_agree_when_content_given_witness :
  SingleFile.executeTool (rt := Sim.runtime) "write_file"
    (<["content" := JStr "x"]> {["path" := JStr "a.txt"]}) Sim.disk
  = Modular.executeTool (rt := Sim.runtime) "write_file"
      (<["content" := JStr "x"]> {["path" := JStr "a.txt"]}) Sim.disk.
Proof.
  apply (variants_agree_when_content_given (rt := Sim.runtime)).
  intros _. vm_compute. reflexivity.
Defined.

(** C9 as stated fails: for [write_file] without [content] the
    modularized variant reports the missing field, while the single-file
    variant hands the absent value to the file system and reports what
    that layer raises. *)
Lemma variants_differ_on_absent_content :
  ¬ (∀ (rt : Runtime) (name : string) (input : Obj) (w : node),
       name ∈ map tool_name SingleFile.tools →
       (SingleFile.executeTool name input w).1 = (Modular.executeTool name input w).1).
Proof.
  intros H.
  specialize (H Sim.runtime "write_file" {["path" := JStr "a.txt"]} Sim.disk).
  assert (Hin : "write_file" ∈ map tool_name SingleFile.tools).
  { simpl. apply list_elem_of_further, list_elem_of_here. }
  specialize (H Hin). vm_compute in H. discriminate H.
Qed.

Lemma find_unlisted (name : string) :
  name ∉ map tool_name Modular.tools →
  List.find (fun t => String.eqb (tool_name t) name) Modular.tools = None.
Proof.
  intros Hname. destruct (unlisted_name _ Hname) as (E1 & E2 & E3 & E4).
  cbv [List.find Modular.tools tool_name].
  by rewrite !(String.eqb_sym _ name), E1, E2, E3, E4.
Qed.

(** C3, as amended: for [read_file], [write_file], [list_dir] and every
    name that is no tool, [executeTool] returns a text for every
    argument object and throws nothing: each exception of the path and
    file-system layer is caught. For these tools, arguments that lack a
    required property or carry a value that is not a string give a text
    that starts with "Error: " and change nothing. [bash] does not check
    its argument: whenever the call of [spawn] returns, [bash] returns a
    text, which starts with "Error: " exactly when the child could not
    be started. *)
Theorem executeTool_renders_failures {rt : Runtime}
    (name : string) (input : Obj) (w : node) :
  (name ≠ "bash" →
   ∃ text w',
     Modular.executeTool name input w = (Normal text, w')
     ∧ (well_formed Modular.tools name input = false →
        String.prefix "Error: " text = true ∧ w' = w))
  ∧ (name = "bash" →
     ∀ outcome w',
       spawn (get input "command") w = (outcome, w') →
       (∀ e, outcome ≠ SpawnThrew e) →
       ∃ text,
         Modular.executeTool name input w = (Normal text, w')
         ∧ (String.prefix "Error: " text = true ↔ ∃ e, outcome = SpawnFailed e)).
Proof.
  split.
  - intros Hbash. name_cases name; [| | |done|].
    + rewrite read_file_eq. unfold well_formed. simpl.
      destruct (get input "path") as [| |[]| |s| |] eqn:Hp; simpl;
        try (do 2 eexists; split; [reflexivity|]; done).
      destruct (readFileSync _ w); do 2 eexists; (split; [reflexivity|]); done.
    + rewrite write_file_eq. unfold well_formed. simpl.
      destruct (get input "content") as [| |[]| |c| |] eqn:Hc; simpl;
        try (do 2 eexists; split; [reflexivity|]; done);
        destruct (get input "path") as [| |[]| |s| |] eqn:Hp; simpl;
        try (do 2 eexists; split; [reflexivity|]; done).
      destruct (store _ _ c w); do 2 eexists; (split; [reflexivity|]); done.
    + rewrite list_dir_eq. unfold well_formed. simpl.
      destruct (get input "path") as [| |[]| |s| |] eqn:Hp; simpl;
        try (do 2 eexists; split; [reflexivity|]; done).
      destruct (readdirSync _ w); do 2 eexists; (split; [reflexivity|]); done.
    + assert (Hname : name ∉ map tool_name Modular.tools).
      { simpl. rewrite !not_elem_of_cons. repeat split; try done. apply not_elem_of_nil. }
      destruct (unknown_tool_text_eq name input w Hname) as [-> _].
      do 2 eexists; split; [reflexivity|].
      unfold well_formed. by rewrite (find_unlisted _ Hname).
  - intros -> outcome w' Hs Hthrew. rewrite bash_eq, Hs.
    destruct outcome as [code out err|e|e].
    + eexists; split; [reflexivity|]. rewrite closed_text_no_marker.
      split; [done|]. by intros [e [=]].
    + eexists; split; [reflexivity|]. split; [eauto|].
      intros _. apply prefix_append.
    + by destruct (Hthrew e).
Qed.

Lemma executeTool_renders_failures_witness :
  (well_formed Modular.tools "read_file" ∅ = false
   ∧ ∃ text, Modular.executeTool (rt := Sim.runtime) "read_file" ∅ Sim.disk
             = (Normal text, Sim.disk)
             ∧ String.prefix "Error: " text = true)
  ∧ ∃ text, Modular.executeTool (rt := Sim.runtime) "bash"
              {["command" := JStr "no-such-shell"]} Sim.disk
            = (Normal text, Sim.disk)
            ∧ String.prefix "Error: " text = true.
Proof.
  split.
  - split; [reflexivity|].
    destruct (executeTool_renders_failures (rt := Sim.runtime) "read_file" ∅ Sim.disk)
      as [Hfs _].
    destruct Hfs as (text & w' & Hrun & Hmark); [discriminate|].
    destruct Hmark as [Hmark ->]; [reflexivity|].
    exists text. split; [exact Hrun|exact Hmark].
  - destruct (executeTool_renders_failures (rt := Sim.runtime) "bash"
                {["command" := JStr "no-such-shell"]} Sim.disk) as [_ Hbash].
    destruct (Hbash eq_refl (SpawnFailed (mkError "Error" None "spawn bash ENOENT"))
                Sim.disk eq_refl) as (text & Hrun & Hmark); [discriminate|].
    exists text. split; [exact Hrun|]. apply Hmark. eauto.
Defined.

(** C3 as stated fails: [bash] called without a [command] spawns a shell
    all the same, and when that shell closes the text reports its exit
    code instead of starting with an error marker. *)
Lemma bash_arguments_are_not_checked :
  ¬ (∀ (rt : Runtime) (name : string) (input : Obj) (w : node),
       ∃ text w',
         Modular.executeTool name input w = (Normal text, w')
         ∧ (well_formed Modular.tools name input = false →
            String.prefix "Error" text = true)).
Proof.
  intros H. destruct (H Sim.runtime "bash" ∅ Sim.disk) as (text & w' & Hrun & Hmark).
  specialize (Hmark eq_refl).
  vm_compute in Hrun. injection Hrun as <- _.
  vm_compute in Hmark. discriminate Hmark.
Qed.

(** ** The Turn Loop *)

Lemma requests_issued_app tr tr' :
  requests_issued (tr ++ tr') = (requests_issued tr + requests_issued tr')%N.
Proof.
  unfold requests_issued. rewrite List.filter_app, length_app. lia.
Qed.

Lemma requests_issued_executions (requests : list Request) :
  requests_issued (map execution requests) = 0%N.
Proof. induction requests; [done|]. by simpl. Qed.

Section TurnLoop.
Context {rt : Runtime} {api : Anthropic} {tk : Tokenizer}.

(** Requests that all return were all started, and each of them is
    answered under its own identifier. *)
Lemma run_tools_returned (requests : list Request) w results w' started :
  run_tools requests w = (Normal results, w', started) →
  started = requests
  ∧ Forall2 (fun rq rs => ∃ text, rs = ToolResultBlock rq.1.1 text) requests results.
Proof.
  revert w results started. induction requests as [|rq rest IH]; intros w results started.
  - simpl. intros [= <- <- <-]. by split; [|constructor].
  - simpl. destruct (Modular.executeTool _ _ w) as [[text|e] w1]; [|done].
    destruct (run_tools rest w1) as [[[results1|e] w2] started1] eqn:Hrest; [|done].
    intros [= <- <- <-]. destruct (IH _ _ _ Hrest) as [-> Hall].
    split; [done|]. constructor; eauto.
Qed.

(** The requests started before an exception end with a [bash] request
    whose [spawn] threw; the requests after it were not started. *)
Lemma run_tools_threw (requests : list Request) w e w' started :
  run_tools requests w = (Throw e, w', started) →
  ∃ before rq after w0,
    started = before ++ [rq] ∧ requests = started ++ after
    ∧ rq.1.2 = "bash" ∧ spawn (get rq.2 "command") w0 = (SpawnThrew e, w').
Proof.
  revert w started. induction requests as [|rq rest IH]; intros w started; [done|].
  simpl. destruct (Modular.executeTool _ _ w) as [[text|e1] w1] eqn:Hrun.
  - destruct (run_tools rest w1) as [[[results1|e1] w2] started1] eqn:Hrest; [done|].
    intros [= <- <- <-].
    destruct (IH _ _ Hrest) as (before & rq' & after & w0 & -> & -> & Hname & Hspawn).
    exists (rq :: before), rq', after, w0. simpl. by repeat split.
  - intros [= <- <- <-]. exists [], rq, rest, w.
    split; [done|]. split; [done|].
    destruct (decide (rq.1.2 = "bash")) as [Hname|Hname].
    + split; [done|]. rewrite Hname, bash_eq in Hrun.
      by destruct (spawn _ w) as [[code out err|e'|e'] w0]; inversion Hrun.
    + destruct (executeTool_returns _ rq.2 w Hname) as (text & w0 & Hret).
      by rewrite Hret in Hrun.
Qed.

(** Requests none of whose [spawn] throws all return. *)
Lemma run_tools_quiet (requests : list Request) w :
  Forall (fun rq : Request =>
            rq.1.2 = "bash" →
            ∀ w e w', spawn (get rq.2 "command") w ≠ (SpawnThrew e, w')) requests →
  ∃ results w', run_tools requests w = (Normal results, w', requests).
Proof.
  intros Hall.
  destruct (run_tools requests w) as [[[results|e] w'] started] eqn:Hrun.
  - destruct (run_tools_returned _ _ _ _ _ Hrun) as [-> _]. eauto.
  - destruct (run_tools_threw _ _ _ _ _ Hrun)
      as (before & rq & after & w0 & -> & -> & Hname & Hspawn).
    rewrite Forall_app, Forall_app, Forall_singleton in Hall.
    destruct Hall as [[_ Hrq] _]. by destruct (Hrq Hname w0 e w').
Qed.

(** The loop over the blocks runs the requests of the response in their
    order, and stops at the first that throws. *)
Lemma forBlocks_run_tools bs hasToolUse toolResults w tr :
  Agent.forBlocks bs hasToolUse toolResults w tr =
  match run_tools (tool_requests bs) w with
  | (Normal results, w', started) =>
      (Normal (hasToolUse || negb (bool_decide (tool_requests bs = [])),
               toolResults ++ results),
       w', tr ++ map execution started)
  | (Throw e, w', started) => (Throw e, w', tr ++ map execution started)
  end.
Proof.
  revert hasToolUse toolResults w tr.
  induction bs as [|b bs IH]; intros h acc w tr.
  - simpl. by rewrite orb_false_r, !app_nil_r.
  - destruct b as [text|id name input|id c|]; simpl; try apply IH.
    destruct (Modular.executeTool name input w) as [[text|e] w1]; [|done].
    rewrite IH.
    destruct (run_tools (tool_requests bs) w1) as [[[results|e] w2] started]; simpl.
    + by rewrite orb_true_r, <- !app_assoc.
    + by rewrite <- !app_assoc.
Qed.

(** One pass through the body of the loop. *)
Lemma loop_step fuel s :
  Agent.loop (S fuel) s =
  match messages_create Agent.systemPrompt (Agent.messages s) with
  | Throw e => Agent.Thrown e (after_failure s)
  | Normal response =>
      match run_tools (tool_requests (response_content response)) (Agent.disk s) with
      | (Throw e, w, started) => Agent.Thrown e (after_abort s response started w)
      | (Normal results, w, _) =>
          if bool_decide (tool_requests (response_content response) = [])
          then Agent.Returned (after_answer s response)
          else Agent.loop fuel (after_tools s response results w)
      end
  end.
Proof.
  cbn [Agent.loop].
  destruct (messages_create Agent.systemPrompt (Agent.messages s)) as [response|e];
    [|done].
  rewrite forBlocks_run_tools.
  destruct (run_tools (tool_requests (response_content response)) (Agent.disk s))
    as [[[results|e] w] started] eqn:Hrun.
  - destruct (run_tools_returned _ _ _ _ _ Hrun) as [-> _].
    case_bool_decide as Hreq.
    + rewrite Hreq in Hrun. simpl in Hrun. injection Hrun as <- <-.
      unfold after_answer. simpl. by rewrite Hreq, !app_nil_r.
    + unfold after_tools. simpl. by rewrite <- !app_assoc.
  - unfold after_abort. by rewrite <- !app_assoc.
Qed.

(** One pass through the body of the loop when the model asks for
    nothing. *)
Lemma loop_break fuel s response :
  messages_create Agent.systemPrompt (Agent.messages s) = Normal response →
  tool_requests (response_content response) = [] →
  Agent.loop (S fuel) s = Agent.Returned (after_answer s response).
Proof.
  intros Hresp Hreq. rewrite loop_step, Hresp, Hreq. done.
Qed.

(** One pass through the body of the loop when the model asks for tools
    and each of them returns. *)
Lemma loop_continue fuel s response results w started :
  messages_create Agent.systemPrompt (Agent.messages s) = Normal response →
  tool_requests (response_content response) ≠ [] →
  run_tools (tool_requests (response_content response)) (Agent.disk s)
  = (Normal results, w, started) →
  Agent.loop (S fuel) s = Agent.loop fuel (after_tools s response results w).
Proof.
  intros Hresp Hreq Hrun. rewrite loop_step, Hresp, Hrun.
  by rewrite bool_decide_eq_false_2.
Qed.

(** One pass through the body of the loop when a tool throws. *)
Lemma loop_abort fuel s response e w started :
  messages_create Agent.systemPrompt (Agent.messages s) = Normal response →
  run_tools (tool_requests (response_content response)) (Agent.disk s)
  = (Throw e, w, started) →
  Agent.loop (S fuel) s = Agent.Thrown e (after_abort s response started w).
Proof. intros Hresp Hrun. by rewrite loop_step, Hresp, Hrun. Qed.

(** A property of pairs of states that holds across each kind of
    iteration, and is reflexive and transitive, holds between the state a
    run starts in and the state it ends in. *)
Lemma loop_relates (R : Agent.State → Agent.State → Prop) :
  (∀ s, R s s) →
  (∀ a b c, R a b → R b c → R a c) →
  (∀ s, R s (after_failure s)) →
  (∀ s response,
     messages_create Agent.systemPrompt (Agent.messages s) = Normal response →
     R s (after_answer s response)) →
  (∀ s response results w started,
     messages_create Agent.systemPrompt (Agent.messages s) = Normal response →
     run_tools (tool_requests (response_content response)) (Agent.disk s)
     = (Normal results, w, started) →
     R s (after_tools s response results w)) →
  (∀ s response e w started,
     messages_create Agent.systemPrompt (Agent.messages s) = Normal response →
     run_tools (tool_requests (response_content response)) (Agent.disk s)
     = (Throw e, w, started) →
     R s (after_abort s response started w)) →
  ∀ fuel s, R s (state_of (Agent.loop fuel s)).
Proof.
  intros Hrefl Htrans Hfail Hanswer Htools Habort fuel.
  induction fuel as [|fuel IH]; intros s; [apply Hrefl|].
  rewrite loop_step.
  destruct (messages_create Agent.systemPrompt (Agent.messages s))
    as [response|e] eqn:Hresp; [|apply Hfail].
  destruct (run_tools _ (Agent.disk s)) as [[[results|e] w] started] eqn:Hrun.
  - case_bool_decide.
    + by apply Hanswer.
    + eapply Htrans; [|apply IH]. by eapply Htools.
  - by eapply Habort.
Qed.

(** The record of what was done only ever grows. *)
Lemma loop_trace_grows fuel s :
  Agent.trace s `prefix_of` Agent.trace (state_of (Agent.loop fuel s)).
Proof.
  revert fuel s.
  apply (loop_relates (fun a b => Agent.trace a `prefix_of` Agent.trace b));
    try (intros; simpl; by apply prefix_app_r).
  - done.
  - intros a b c Hab Hbc. by etrans.
Qed.

(** The first thing an iteration does is to send the transcript. *)
Lemma loop_starts_with_request fuel s :
  (Agent.trace s ++ [ModelRequest (Agent.messages s)])
    `prefix_of` Agent.trace (state_of (Agent.loop (S fuel) s)).
Proof.
  rewrite loop_step.
  destruct (messages_create Agent.systemPrompt (Agent.messages s))
    as [response|e] eqn:Hresp; [|done].
  destruct (run_tools _ (Agent.disk s)) as [[[results|e] w] started] eqn:Hrun.
  - case_bool_decide; [done|].
    etrans; [|apply loop_trace_grows]. cbn [Agent.trace after_tools].
    rewrite app_assoc. by apply prefix_app_r.
  - cbn [state_of Agent.trace after_abort]. rewrite app_assoc. by apply prefix_app_r.
Qed.

End TurnLoop.

(** X20: when [spawn] throws for none of the [bash] commands a response
    asks for, the loop runs the requests of the response in their
    order, and the next request to the model carries the transcript
    extended by the assistant turn and by one user turn that holds one
    tool-result block per request, with the identifier of its request
    and in the same order. *)
Theorem answered_requests_are_sent_on {rt : Runtime} {api : Anthropic} {tk : Tokenizer}
    (fuel : nat) (s : Agent.State) (response : Response) :
  messages_create Agent.systemPrompt (Agent.messages s) = Normal response →
  tool_requests (response_content response) ≠ [] →
  Forall (fun rq : Request =>
            rq.1.2 = "bash" →
            ∀ w e w', spawn (get rq.2 "command") w ≠ (SpawnThrew e, w'))
         (tool_requests (response_content response)) →
  let requests := tool_requests (response_content response) in
  ∃ results,
    let transcript :=
      Agent.messages s
      ++ [mkMessage assistant (Blocks (response_content response));
          mkMessage user (Blocks results)] in
    Forall2 (fun rq rs => ∃ text, rs = ToolResultBlock rq.1.1 text) requests results
    ∧ (Agent.trace s ++ [ModelRequest (Agent.messages s)]
       ++ map execution requests ++ [ModelRequest transcript])
      `prefix_of` Agent.trace (state_of (Agent.loop (S (S fuel)) s)).
Proof.
  intros Hresp Hreq Hspawn requests.
  destruct (run_tools_quiet requests (Agent.disk s) Hspawn) as (results & w & Hrun).
  exists results. split; [by destruct (run_tools_returned _ _ _ _ _ Hrun)|].
  rewrite (loop_continue _ _ _ _ _ _ Hresp Hreq Hrun).
  etrans; [|apply loop_starts_with_request]. cbn [Agent.trace Agent.messages after_tools].
  by rewrite <- !app_assoc.
Qed.

Lemma answered_requests_are_sent_on_witness :
  let s := Agent.mkState [mkMessage user (Text "inspect")] 0
             (SessionStats.mk 0 0 200000 0) Sim.disk [] in
  ∃ results,
    Forall2 (fun (rq : Request) rs => ∃ text, rs = ToolResultBlock rq.1.1 text)
            (tool_requests (response_content Sim.inspect_reply)) results
    ∧ ([ModelRequest [mkMessage user (Text "inspect")];
        ToolExecution "toolu_01" "read_file" {["path" := JStr "README.md"]};
        ToolExecution "toolu_02" "bash" {["command" := JStr "exit 7"]};
        ModelRequest
          [mkMessage user (Text "inspect");
           mkMessage assistant (Blocks (response_content Sim.inspect_reply));
           mkMessage user (Blocks results)]]
       `prefix_of` Agent.trace (state_of (Agent.loop (rt := Sim.runtime) (api := Sim.model)
                                            (tk := Sim.tokenizer) 2 s))).
Proof.
  intros s.
  assert (Hreq : tool_requests (response_content Sim.inspect_reply) ≠ []) by discriminate.
  apply (answered_requests_are_sent_on (rt := Sim.runtime) (api := Sim.model)
           (tk := Sim.tokenizer) 0 s Sim.inspect_reply eq_refl Hreq).
  repeat constructor; simpl; discriminate.
Defined.

(** C1, on the code: a request for [bash] whose [spawn] throws ends the
    run at once. [executeTool] does not catch the exception and the loop
    does not catch it either: the run ends with that exception, the
    transcript is left as it was, without the assistant turn and without
    a result for any request of the response, and the requests that come
    after the one that threw are never executed. The claim asks for one
    result per request. *)
Theorem a_throwing_tool_aborts_the_turn {rt : Runtime} {api : Anthropic} {tk : Tokenizer}
    (fuel : nat) (s : Agent.State) (response : Response)
    (before after : list ContentBlock) (id : string) (input : Obj)
    (e : JSError) (w : node) :
  messages_create Agent.systemPrompt (Agent.messages s) = Normal response →
  response_content response = before ++ ToolUseBlock id "bash" input :: after →
  tool_requests before = [] →
  spawn (get input "command") (Agent.disk s) = (SpawnThrew e, w) →
  ∃ s', Agent.loop (S fuel) s = Agent.Thrown e s'
        ∧ Agent.messages s' = Agent.messages s
        ∧ Agent.trace s'
          = Agent.trace s ++ [ModelRequest (Agent.messages s);
                              ToolExecution id "bash" input].
Proof.
  intros Hresp Hcontent Hbefore Hspawn.
  assert (Hrun : run_tools (tool_requests (response_content response)) (Agent.disk s)
                 = (Throw e, w, [(id, "bash", input)])).
  { rewrite Hcontent. unfold tool_requests. rewrite omap_app.
    fold (tool_requests before). rewrite Hbefore. simpl.
    by rewrite bash_eq, Hspawn. }
  rewrite (loop_abort _ _ _ _ _ _ Hresp Hrun).
  eexists; split; [reflexivity|]. done.
Qed.

Lemma a_throwing_tool_aborts_the_turn_witness :
  ∃ s', Agent.runAgent (rt := Sim.runtime) (api := Cases.careless) (tk := Sim.tokenizer)
          "run it" (SessionStats.mk 0 0 200000 0) Sim.disk 5
        = Agent.Thrown (Sim.null_bytes Cases.nul_command) s'
        ∧ Agent.messages s' = [mkMessage user (Text "run it")]
        ∧ Agent.trace s'
          = [ModelRequest [mkMessage user (Text "run it")];
             ToolExecution "toolu_n1" "bash" {["command" := JStr Cases.nul_command]}].
Proof.
  exact (a_throwing_tool_aborts_the_turn (rt := Sim.runtime) (api := Cases.careless)
           (tk := Sim.tokenizer) 4
           (Agent.mkState [mkMessage user (Text "run it")] 0
              (SessionStats.mk 0 0 200000 0) Sim.disk [])
           (mkResponse
              [TextBlock "Running it.";
               ToolUseBlock "toolu_n1" "bash" {["command" := JStr Cases.nul_command]};
               ToolUseBlock "toolu_n2" "read_file" {["path" := JStr "README.md"]}])
           [TextBlock "Running it."]
           [ToolUseBlock "toolu_n2" "read_file" {["path" := JStr "README.md"]}]
           "toolu_n1" {["command" := JStr Cases.nul_command]}
           (Sim.null_bytes Cases.nul_command) Sim.disk eq_refl eq_refl eq_refl eq_refl).
Defined.

(** C2: when the first response to a prompt holds no tool-invocation
    request, the loop ends in its first iteration after a single model
    request, and the transcript is the user turn followed by one assistant
    turn with that response. *)
Theorem single_turn_without_requests {rt : Runtime} {api : Anthropic} {tk : Tokenizer}
    (userMessage : string) (stats : SessionStats.t) (w : node) (fuel : nat)
    (response : Response) :
  messages_create Agent.systemPrompt [mkMessage user (Text userMessage)] = Normal response →
  tool_requests (response_content response) = [] →
  ∃ s, Agent.runAgent userMessage stats w (S fuel) = Agent.Returned s
       ∧ Agent.messages s
         = [mkMessage user (Text userMessage);
            mkMessage assistant (Blocks (response_content response))]
       ∧ Agent.loopCount s = 1%N
       ∧ Agent.trace s = [ModelRequest [mkMessage user (Text userMessage)]]
       ∧ Agent.disk s = w.
Proof.
  intros Hresp Hreq. unfold Agent.runAgent.
  rewrite (loop_break fuel (Agent.mkState [mkMessage user (Text userMessage)] 0 stats w [])
             response Hresp Hreq).
  eexists; split; [reflexivity|]. by repeat split.
Qed.

Lemma single_turn_without_requests_witness :
  ∃ s, Agent.runAgent (rt := Sim.runtime) (api := Sim.model) (tk := Sim.tokenizer)
         "hi" (SessionStats.mk 0 0 200000 0) Sim.disk 1 = Agent.Returned s
       ∧ Agent.messages s
         = [mkMessage user (Text "hi"); mkMessage assistant (Blocks [TextBlock "Hello."])].
Proof.
  destruct (single_turn_without_requests (rt := Sim.runtime) (api := Sim.model)
              (tk := Sim.tokenizer) "hi" (SessionStats.mk 0 0 200000 0) Sim.disk 0
              (mkResponse [TextBlock "Hello."]) eq_refl eq_refl)
    as (s & Hrun & Hmsgs & _).
  exists s. split; [exact Hrun|exact Hmsgs].
Defined.

(** ** Session statistics *)

Section Statistics.
Context {rt : Runtime} {api : Anthropic} {tk : Tokenizer}.

(** No field of the statistics ever goes down during a run, however the
    run ends. *)
Lemma sessionStats_never_decrease fuel s :
  stats_le (Agent.sessionStats s) (Agent.sessionStats (state_of (Agent.loop fuel s))).
Proof.
  revert fuel s.
  apply (loop_relates (fun a b => stats_le (Agent.sessionStats a) (Agent.sessionStats b)));
    try (intros; unfold stats_le; simpl; lia).
  intros a b c. unfold stats_le. lia.
Qed.

(** Each request adds its own token count to [totalTokens] and its input
    tokens to [currentConversationTokens]. *)
Lemma updateContextUsage_tokens usage stats :
  SessionStats.totalTokens (Utils.updateContextUsage usage stats)
  = (SessionStats.totalTokens stats + TokenUsage.totalTokens usage)%N
  ∧ SessionStats.currentConversationTokens (Utils.updateContextUsage usage stats)
    = (SessionStats.currentConversationTokens stats + TokenUsage.inputTokens usage)%N
  ∧ SessionStats.maxContextTokens (Utils.updateContextUsage usage stats)
    = SessionStats.maxContextTokens stats.
Proof. done. Qed.

(** What a run that returns has done to the counters: [requestCount]
    moves by two for every model request, [loopCount] by one. *)
Lemma loop_counters fuel s s' :
  Agent.loop fuel s = Agent.Returned s' →
  ∃ n : N,
    requests_issued (Agent.trace s') = (requests_issued (Agent.trace s) + n)%N
    ∧ Agent.loopCount s' = (Agent.loopCount s + n)%N
    ∧ SessionStats.requestCount (Agent.sessionStats s')
      = (SessionStats.requestCount (Agent.sessionStats s) + 2 * n)%N.
Proof.
  revert s. induction fuel as [|fuel IH]; intros s; [done|].
  rewrite loop_step.
  destruct (messages_create Agent.systemPrompt (Agent.messages s))
    as [response|e] eqn:Hresp; [|done].
  destruct (run_tools _ (Agent.disk s)) as [[[results|e] w] started] eqn:Hrun; [|done].
  case_bool_decide as Hreq.
  - intros [= <-]. exists 1%N.
    cbn [Agent.trace Agent.loopCount Agent.sessionStats after_answer].
    rewrite requests_issued_app. simpl. split; [done|]. split; lia.
  - intros Hloop.
    destruct (IH _ Hloop) as (n & Htr & Hlc & Hrc). exists (1 + n)%N.
    revert Htr Hlc Hrc. cbn [Agent.trace Agent.loopCount Agent.sessionStats after_tools].
    rewrite !requests_issued_app, requests_issued_executions. simpl.
    intros -> -> ->. unfold requests_issued. simpl. lia.
Qed.
End Statistics.

(** C8, on the code: a run of the agent that returns after [n] model
    requests has raised [requestCount] by [2 * n], since the loop and
    [updateContextUsage] both increment it for the same request; the
    claim asks for an increase of [n]. *)
Theorem requestCount_counts_each_request_twice
    {rt : Runtime} {api : Anthropic} {tk : Tokenizer}
    (userMessage : string) (stats : SessionStats.t) (w : node) (fuel : nat)
    (s' : Agent.State) :
  Agent.runAgent userMessage stats w fuel = Agent.Returned s' →
  SessionStats.requestCount (Agent.sessionStats s')
  = (SessionStats.requestCount stats + 2 * requests_issued (Agent.trace s'))%N.
Proof.
  intros Hrun. destruct (loop_counters _ _ _ Hrun) as (n & Htr & _ & Hrc).
  rewrite Hrc, Htr. simpl. unfold requests_issued. simpl. lia.
Qed.

Lemma requestCount_counts_each_request_twice_witness :
  ∃ s', Agent.runAgent (rt := Sim.runtime) (api := Sim.model) (tk := Sim.tokenizer)
          "hi" (SessionStats.mk 0 0 200000 0) Sim.disk 1 = Agent.Returned s'
        ∧ requests_issued (Agent.trace s') = 1%N
        ∧ SessionStats.requestCount (Agent.sessionStats s') = 2%N.
Proof.
  pose (s' := state_of (Agent.runAgent (rt := Sim.runtime) (api := Sim.model)
                          (tk := Sim.tokenizer) "hi" (SessionStats.mk 0 0 200000 0)
                          Sim.disk 1)).
  assert (Hrun : Agent.runAgent (rt := Sim.runtime) (api := Sim.model)
                   (tk := Sim.tokenizer) "hi" (SessionStats.mk 0 0 200000 0) Sim.disk 1
                 = Agent.Returned s') by (vm_compute; reflexivity).
  exists s'. split; [exact Hrun|]. split; [vm_compute; reflexivity|].
  etrans; [exact (requestCount_counts_each_request_twice _ _ _ _ _ Hrun)|].
  vm_compute. reflexivity.
Defined.

(** ** Searching file contents *)

(** Induction on a file tree reaches every entry of every directory. *)
Lemma node_tree_ind (P : node → Prop) :
  (∀ content, P (File content)) →
  (∀ entries, Forall (fun e => P e.2) entries → P (Dir entries)) →
  ∀ n, P n.
Proof.
  intros Hfile Hdir. fix IH 1. intros [content|entries]; [apply Hfile|].
  apply Hdir. induction entries as [|[name child] entries IHentries]; constructor.
  - apply IH.
  - apply IHentries.
Qed.

Lemma append_cons (a : Ascii.ascii) (s t : string) : String a s +:+ t = String a (s +:+ t).
Proof. reflexivity. Qed.

Lemma prefix_spec (n h : string) :
  String.prefix n h = true ↔ ∃ after, h = n +:+ after.
Proof.
  revert n. induction h as [|c h IH]; intros [|a n].
  - split; [by exists ""|done].
  - split; [done|]. intros [after H]. by rewrite append_cons in H.
  - split; [by exists (String c h)|done].
  - cbn [String.prefix]. destruct (ascii_dec a c) as [->|Hne].
    + rewrite IH. split; intros [after H]; exists after.
      * by rewrite append_cons, H.
      * rewrite append_cons in H. by injection H.
    + split; [done|]. intros [after H]. rewrite append_cons in H. by injection H.
Qed.

(** [includes] finds the substrings. *)
Lemma includes_spec (h n : string) :
  includes h n = true ↔ ∃ before after, h = before +:+ n +:+ after.
Proof.
  induction h as [|c h IH]; cbn [includes]; rewrite orb_true_iff, prefix_spec.
  - split.
    + intros [[after H]|?]; [|done]. by exists "", after.
    + intros ([|b before] & after & H); [left; by exists after|].
      by rewrite append_cons in H.
  - rewrite IH. split.
    + intros [[after H]|(before & after & H)]; [by exists "", after|].
      exists (String c before), after. by rewrite append_cons, H.
    + intros ([|b before] & after & H); [left; by exists after|].
      right. rewrite append_cons in H. injection H as _ H. by exists before, after.
Qed.

Lemma existsb_JStr (extension : string) (l : list JSValue) :
  existsb (fun v => match v with
                    | JStr e => String.eqb e extension
                    | _ => false
                    end) l = true ↔ JStr extension ∈ l.
Proof.
  induction l as [|v l IH]; simpl.
  - split; [done|]. by intros ?%elem_of_nil.
  - rewrite orb_true_iff, IH, elem_of_cons. split.
    + intros [H|H]; [left|by right]. destruct v; try done.
      by apply String.eqb_eq in H as ->.
    + intros [<-|H]; [left|by right]. apply String.eqb_refl.
Qed.

Section Search.
Context {rt : Runtime} {col : Colorize} {re : RegExpEngine} {nu : Numbers}.

(** The test of the code passes over the files that the extension list
    does not let through, and no others. *)
Lemma filtered_out_admits fileExtensions filePath :
  Enhanced.filtered_out fileExtensions filePath = false
  ↔ admits fileExtensions (extname filePath).
Proof.
  unfold Enhanced.filtered_out, admits.
  destruct fileExtensions as [| |[]|n|s|l|fields]; simpl; try done.
  - by destruct (n =? 0)%Z.
  - destruct (String.eqb_spec s "") as [->|Hs]; simpl; [by split; [left|]|].
    rewrite negb_false_iff, includes_spec. split; [by right|].
    by intros [?|?].
  - destruct l as [|v l]; [by split; [left|]|].
    rewrite negb_false_iff, existsb_JStr. split; [by right|].
    by intros [?|?].
  - by destruct (greater_than_zero _) as [[]|].
Qed.

(** The code enters the directories that the search is not to stay out
    of, when the search is recursive. *)
Lemma descend_spec recursive name :
  Enhanced.descend recursive name = truthy recursive && negb (kept_out name).
Proof.
  unfold Enhanced.descend, kept_out. rewrite <- andb_assoc. f_equal.
  rewrite <- negb_orb. f_equal.
  destruct name as [|a name]; [done|].
  f_equal.
  - cbn [String.prefix]. destruct (ascii_dec "." a) as [<-|Hne]; [by destruct name|].
    symmetry. apply Ascii.eqb_neq. congruence.
  - destruct (String.eqb_spec (String a name) "node_modules") as [->|Hne]; [done|].
    by rewrite bool_decide_eq_false_2.
Qed.

(** The lines the loop over the lines of a file adds. *)
Lemma forEachLine_matching_lines regex filePath lines index results :
  Enhanced.forEachLine regex filePath lines index results
  = results ++ matching_lines regex filePath (S index) lines.
Proof.
  revert index results. induction lines as [|line rest IH]; intros index results; simpl.
  - by rewrite app_nil_r.
  - rewrite IH. destruct (String_match line regex); [|done].
    by rewrite <- app_assoc.
Qed.

Lemma matching_lines_elem regex filePath first lines r :
  r ∈ matching_lines regex filePath first lines ↔
  ∃ (i : nat) (line : string),
    lines !! i = Some line ∧ String_match line regex = true
    ∧ r = output_line regex filePath (first + i) line.
Proof.
  revert first. induction lines as [|line rest IH]; intros first; simpl.
  - split; [by intros ?%elem_of_nil|]. by intros (i & l & [=] & _).
  - rewrite elem_of_app, IH. split.
    + intros [Hr|(i & l & Hl & Hm & ->)].
      * destruct (String_match line regex) eqn:Hm; [|by apply elem_of_nil in Hr].
        apply list_elem_of_singleton in Hr as ->.
        exists 0, line. by rewrite Nat.add_0_r.
      * exists (S i), l. split; [done|]. split; [done|]. f_equal. lia.
    + intros (i & l & Hl & Hm & ->). destruct i as [|i]; simpl in Hl.
      * injection Hl as ->. left. rewrite Hm, Nat.add_0_r.
        by apply list_elem_of_singleton.
      * right. exists i, l. split; [done|]. split; [done|]. f_equal. lia.
Qed.

(** What [searchInFile] adds is the report on the file. *)
Lemma searchInFile_report regex fileExtensions filePath content results :
  ∃ here,
    file_report regex fileExtensions filePath content here
    ∧ Enhanced.searchInFile regex fileExtensions filePath content results
      = results ++ here.
Proof.
  unfold Enhanced.searchInFile, file_report.
  destruct (Enhanced.filtered_out fileExtensions filePath) eqn:Hf.
  - exists []. rewrite app_nil_r. split; [|done]. split; [|done].
    intros Hadmits%filtered_out_admits. congruence.
  - exists (matching_lines regex filePath 1 (split_on "010"%char content)).
    rewrite forEachLine_matching_lines. split; [|done]. split; [done|].
    intros Hno. by apply filtered_out_admits in Hf.
Qed.

Lemma file_report_elem regex fileExtensions filePath content here r :
  file_report regex fileExtensions filePath content here →
  r ∈ here ↔ hit regex fileExtensions filePath content r.
Proof.
  intros [Hyes Hno]. unfold hit.
  destruct (Enhanced.filtered_out fileExtensions filePath) eqn:Hf.
  - assert (Hnot : ¬ admits fileExtensions (extname filePath)).
    { intros Hadmits%filtered_out_admits. congruence. }
    rewrite (Hno Hnot). split; [by intros ?%elem_of_nil|]. by intros [? _].
  - apply filtered_out_admits in Hf. rewrite (Hyes Hf), matching_lines_elem.
    split; [by intros ?|by intros [_ ?]].
Qed.

(** The nested loop of [searchEntry] is [searchDirectory]. *)
Lemma searchEntry_Dir regex fileExtensions recursive dirPath name entries results :
  Enhanced.searchEntry regex fileExtensions recursive dirPath name (Dir entries) results =
  if Enhanced.descend recursive name
  then Enhanced.searchDirectory regex fileExtensions recursive (dirPath ++ [name])
         entries results
  else results.
Proof.
  simpl. destruct (Enhanced.descend recursive name); [|done].
  unfold Enhanced.searchDirectory. revert results.
  induction entries as [|[name' child'] rest IH]; intros results; [done|].
  simpl. apply IH.
Qed.

(** What the walk of a tree adds is the report on it, entry by entry. *)
Lemma searchEntry_reported regex fileExtensions recursive child :
  ∀ dirPath name results,
    ∃ lines,
      reported regex fileExtensions recursive dirPath [(name, child)] lines
      ∧ Enhanced.searchEntry regex fileExtensions recursive dirPath name child results
        = results ++ lines.
Proof.
  induction child as [content|entries IH] using node_tree_ind; intros dirPath name results.
  - destruct (searchInFile_report regex fileExtensions (dirPath ++ [name]) content results)
      as (here & Hreport & Hrun).
    exists (here ++ []). split; [apply reported_file; [done|constructor]|].
    by rewrite app_nil_r.
  - rewrite searchEntry_Dir, descend_spec.
    assert (Hdir : ∀ results,
               ∃ below,
                 reported regex fileExtensions recursive (dirPath ++ [name]) entries below
                 ∧ Enhanced.searchDirectory regex fileExtensions recursive
                     (dirPath ++ [name]) entries results = results ++ below).
    { unfold Enhanced.searchDirectory.
      induction entries as [|[name' child'] rest IHrest]; intros acc.
      - exists []. rewrite app_nil_r. split; [constructor|done].
      - apply Forall_cons in IH as [IHchild IHall]. simpl in IHchild |- *.
        destruct (IHchild (dirPath ++ [name]) name' acc) as (first & Hfirst & ->).
        destruct (IHrest IHall (acc ++ first)) as (others & Hothers & ->).
        exists (first ++ others). rewrite <- app_assoc. split; [|done].
        inversion Hfirst as [|? ? ? ? here nothing Hfile Hend
                             |? ? ? ? below nothing Htruthy Hkept Hbelow Hend
                             |? ? ? ? nothing Hpass Hend]; subst;
          inversion Hend; subst; rewrite ?app_nil_r; simpl.
        + by apply reported_file.
        + by apply reported_entered.
        + by apply reported_passed. }
    destruct (truthy recursive) eqn:Htruthy; simpl.
    + destruct (kept_out name) eqn:Hkept; simpl.
      * exists []. rewrite app_nil_r. split; [|done].
        apply reported_passed; [by right|constructor].
      * destruct (Hdir results) as (below & Hbelow & ->).
        exists (below ++ []). split; [|by rewrite app_nil_r].
        apply reported_entered; [done..|constructor].
    + exists []. rewrite app_nil_r. split; [|done].
      apply reported_passed; [by left|constructor].
Qed.

Lemma searchDirectory_reported regex fileExtensions recursive dirPath entries results :
  ∃ lines,
    reported regex fileExtensions recursive dirPath entries lines
    ∧ Enhanced.searchDirectory regex fileExtensions recursive dirPath entries results
      = results ++ lines.
Proof.
  unfold Enhanced.searchDirectory. revert results.
  induction entries as [|[name child] rest IH]; intros results.
  - exists []. rewrite app_nil_r. split; [constructor|done].
  - simpl.
    destruct (searchEntry_reported regex fileExtensions recursive child dirPath name results)
      as (first & Hfirst & ->).
    destruct (IH (results ++ first)) as (others & Hothers & ->).
    exists (first ++ others). rewrite <- app_assoc. split; [|done].
    inversion Hfirst as [|? ? ? ? here nothing Hfile Hend
                         |? ? ? ? below nothing Htruthy Hkept Hbelow Hend
                         |? ? ? ? nothing Hpass Hend]; subst;
      inversion Hend; subst; rewrite ?app_nil_r; simpl.
    + by apply reported_file.
    + by apply reported_entered.
    + by apply reported_passed.
Qed.

Lemma scanned_in_nil recursive dirPath filePath content :
  ¬ scanned_in recursive dirPath [] filePath content.
Proof.
  intros H. inversion H as [? ? n c Hin|? ? n sub ? ? Hin]; subst;
    by apply elem_of_nil in Hin.
Qed.

Lemma scanned_in_cons recursive dirPath name child rest filePath content :
  scanned_in recursive dirPath ((name, child) :: rest) filePath content ↔
  scanned_in recursive dirPath [(name, child)] filePath content
  ∨ scanned_in recursive dirPath rest filePath content.
Proof.
  split.
  - intros H. inversion H as [? ? n c Hin|? ? n sub ? ? Hin Ht Hk Hsub]; subst.
    + apply elem_of_cons in Hin as [[= -> <-]|Hin].
      * left. constructor. apply list_elem_of_here.
      * right. by constructor.
    + apply elem_of_cons in Hin as [[= -> <-]|Hin].
      * left. eapply scanned_below; [apply list_elem_of_here|done..].
      * right. by eapply scanned_below.
  - intros [H|H].
    + inversion H as [? ? n c Hin|? ? n sub ? ? Hin Ht Hk Hsub]; subst.
      * apply list_elem_of_singleton in Hin as [= -> <-].
        constructor. apply list_elem_of_here.
      * apply list_elem_of_singleton in Hin as [= -> <-].
        eapply scanned_below; [apply list_elem_of_here|done..].
    + inversion H as [? ? n c Hin|? ? n sub ? ? Hin Ht Hk Hsub]; subst.
      * constructor. by apply list_elem_of_further.
      * eapply scanned_below; [by apply list_elem_of_further|done..].
Qed.

(** The files of a one-entry listing. *)
Lemma scanned_in_file recursive dirPath name c filePath content :
  scanned_in recursive dirPath [(name, File c)] filePath content ↔
  filePath = dirPath ++ [name] ∧ content = c.
Proof.
  split.
  - intros H. inversion H as [? ? n c' Hin|? ? n sub ? ? Hin Ht Hk Hsub]; subst.
    + by apply list_elem_of_singleton in Hin as [= -> ->].
    + by apply list_elem_of_singleton in Hin as [= ? ?].
  - intros [-> ->]. constructor. apply list_elem_of_here.
Qed.

Lemma scanned_in_dir recursive dirPath name sub filePath content :
  scanned_in recursive dirPath [(name, Dir sub)] filePath content ↔
  truthy recursive = true ∧ kept_out name = false
  ∧ scanned_in recursive (dirPath ++ [name]) sub filePath content.
Proof.
  split.
  - intros H. inversion H as [? ? n c' Hin|? ? n sub' ? ? Hin Ht Hk Hsub]; subst.
    + by apply list_elem_of_singleton in Hin as [= ? ?].
    + by apply list_elem_of_singleton in Hin as [= -> ->].
  - intros (Ht & Hk & Hsub). eapply scanned_below; [apply list_elem_of_here|done..].
Qed.

(** The lines of a report are the output lines of the matching lines of
    the files to be read. *)
Lemma reported_elem regex fileExtensions recursive dirPath entries lines r :
  reported regex fileExtensions recursive dirPath entries lines →
  r ∈ lines ↔
  ∃ filePath content,
    scanned_in recursive dirPath entries filePath content
    ∧ hit regex fileExtensions filePath content r.
Proof.
  intros H.
  induction H as [dirPath
                 |dirPath name content rest here lines Hfile Hrest IH
                 |dirPath name sub rest below lines Ht Hk Hbelow IHbelow Hrest IH
                 |dirPath name sub rest lines Hpass Hrest IH].
  - split; [by intros ?%elem_of_nil|]. by intros (fp & c & ?%scanned_in_nil & _).
  - rewrite elem_of_app, IH, (file_report_elem _ _ _ _ _ _ Hfile). split.
    + intros [Hhit|(fp & c & Hs & Hhit)].
      * exists (dirPath ++ [name]), content. split; [|done].
        apply scanned_in_cons. left. by apply scanned_in_file.
      * exists fp, c. split; [|done]. apply scanned_in_cons. by right.
    + intros (fp & c & Hs & Hhit).
      apply scanned_in_cons in Hs as [[-> ->]%scanned_in_file|Hs]; [by left|].
      right. by exists fp, c.
  - rewrite elem_of_app, IH, IHbelow. split.
    + intros [(fp & c & Hs & Hhit)|(fp & c & Hs & Hhit)]; exists fp, c; (split; [|done]);
        apply scanned_in_cons; [left|by right]. by apply scanned_in_dir.
    + intros (fp & c & Hs & Hhit).
      apply scanned_in_cons in Hs as [(_ & _ & Hs)%scanned_in_dir|Hs];
        [left|right]; by exists fp, c.
  - rewrite IH. split.
    + intros (fp & c & Hs & Hhit). exists fp, c. split; [|done].
      apply scanned_in_cons. by right.
    + intros (fp & c & Hs & Hhit).
      apply scanned_in_cons in Hs as [(Ht & Hk & _)%scanned_in_dir|Hs];
        [destruct Hpass; congruence|]. by exists fp, c.
Qed.

(** The search of an existing target collects the report on it. *)
Lemma collect_report regex fileExtensions recursive targetPath root target :
  walk targetPath root = Found target →
  ∃ lines,
    Enhanced.collect regex fileExtensions recursive targetPath root = Normal lines
    ∧ report regex fileExtensions recursive targetPath root lines.
Proof.
  intros Hwalk. unfold Enhanced.collect, report. rewrite Hwalk.
  destruct target as [content|entries].
  - destruct (searchInFile_report regex fileExtensions targetPath content [])
      as (here & Hreport & ->). by exists here.
  - destruct (searchDirectory_reported regex fileExtensions recursive
                (unslashed targetPath) entries []) as (lines & Hreport & ->).
    by exists lines.
Qed.

Lemma report_elem regex fileExtensions recursive targetPath root lines r :
  report regex fileExtensions recursive targetPath root lines →
  r ∈ lines ↔
  ∃ filePath content,
    scanned recursive targetPath root filePath content
    ∧ hit regex fileExtensions filePath content r.
Proof.
  unfold report, scanned.
  destruct (walk targetPath root) as [[c|entries]| |]; try done.
  - intros Hfile. rewrite (file_report_elem _ _ _ _ _ _ Hfile). split.
    + intros Hhit. by exists targetPath, c.
    + by intros (fp & c' & [-> ->] & Hhit).
  - apply reported_elem.
Qed.

(** The text of a search whose target exists. *)
Lemma grep_search_found (input : Obj) (w : node) targetPath regex shown lines :
  let recursive :=
    if nullish (get input "recursive") then JBool true else get input "recursive" in
  let caseSensitive :=
    if nullish (get input "case_sensitive") then JBool false
    else get input "case_sensitive" in
  resolvePath (get input "path") = Normal targetPath →
  RegExp_new (get input "pattern") (if truthy caseSensitive then "g" else "gi")
  = Normal regex →
  ToString (get input "pattern") = Normal shown →
  Enhanced.collect regex (get input "file_extensions") recursive targetPath w
  = Normal lines →
  Enhanced.grep_search input w = (Normal (search_text shown lines), w).
Proof.
  intros recursive caseSensitive Hpath Hregex Hshown Hcollect.
  unfold Enhanced.grep_search, try_catch, bindM, raise, reading, ret.
  rewrite Hpath. fold recursive caseSensitive.
  rewrite Hregex, Hcollect, Hshown. by destruct lines.
Qed.
End Search.

(** C7: once the path resolves, the pattern compiles and the target
    exists, the search answers with the report on the target. The report
    holds one output line for every matching line of every file the
    search is to read, in the order of the listings and of the lines,
    and nothing else; an output line is the (colourised) relative path
    of the file, a colon, the (colourised) line number counted from 1, a
    colon, and the line with its matches highlighted. With at least one
    such line the text is the summary, an empty line and the output
    lines; with none it is the message
    "No matches found for pattern: ..." in the warning colour, which is
    not the empty string as long as that colour keeps text nonempty.
    The file system is left as it was. *)
Theorem grep_search_reports_matching_lines
    {rt : Runtime} {col : Colorize} {re : RegExpEngine} {nu : Numbers}
    (input : Obj) (w : node) (targetPath : Path) (regex : RegExp)
    (shown : string) (target : node) :
  let pattern := get input "pattern" in
  let recursive :=
    if nullish (get input "recursive") then JBool true else get input "recursive" in
  let caseSensitive :=
    if nullish (get input "case_sensitive") then JBool false
    else get input "case_sensitive" in
  let fileExtensions := get input "file_extensions" in
  resolvePath (get input "path") = Normal targetPath →
  RegExp_new pattern (if truthy caseSensitive then "g" else "gi") = Normal regex →
  ToString pattern = Normal shown →
  walk targetPath w = Found target →
  ∃ lines,
    Enhanced.grep_search input w = (Normal (search_text shown lines), w)
    ∧ report regex fileExtensions recursive targetPath w lines
    ∧ (∀ r, r ∈ lines ↔
            ∃ filePath content,
              scanned recursive targetPath w filePath content
              ∧ hit regex fileExtensions filePath content r)
    ∧ ((∀ s, s ≠ "" → colorize_warning s ≠ "") →
       lines = [] → search_text shown lines ≠ "").
Proof.
  intros pattern recursive caseSensitive fileExtensions Hpath Hregex Hshown Hwalk.
  destruct (collect_report regex fileExtensions recursive targetPath w target Hwalk)
    as (lines & Hcollect & Hreport).
  exists lines. split; [by apply grep_search_found with targetPath regex|].
  split; [done|]. split; [intros r; by apply report_elem|].
  intros Hcol ->. by apply Hcol.
Qed.

Lemma grep_search_reports_matching_lines_witness :
  (∃ lines,
     Enhanced.grep_search (rt := Sim.runtime) (col := Sim.plain) (re := Sim.literals)
       (nu := Sim.numbers)
       (<["pattern" := JStr "foo"]> {["path" := JStr "src/main.ts"]}) Sim.disk
     = (Normal (search_text (col := Sim.plain) "foo" lines), Sim.disk)
     ∧ ("src/main.ts:3:foobar();" ∈ lines))
  ∧ Enhanced.grep_search (rt := Sim.runtime) (col := Sim.plain) (re := Sim.literals)
      (nu := Sim.numbers)
      (<["pattern" := JStr "foo"]> {["path" := JStr "src/main.ts"]}) Sim.disk
    = (Normal ("Found 1 matches for pattern: foo" +:+ nl +:+ nl
               +:+ "src/main.ts:3:foobar();"), Sim.disk)
  ∧ Enhanced.grep_search (rt := Sim.runtime) (col := Sim.plain) (re := Sim.literals)
      (nu := Sim.numbers)
      (<["pattern" := JStr "foo"]> {["path" := JStr "."]}) Sim.disk
    = (Normal ("Found 1 matches for pattern: foo" +:+ nl +:+ nl
               +:+ "src/main.ts:3:foobar();"), Sim.disk)
  ∧ Enhanced.grep_search (rt := Sim.runtime) (col := Sim.plain) (re := Sim.literals)
      (nu := Sim.numbers)
      (<["pattern" := JStr "absent"]> {["path" := JStr "."]}) Sim.disk
    = (Normal "No matches found for pattern: absent", Sim.disk).
Proof.
  split; [|by vm_compute].
  destruct (grep_search_reports_matching_lines
              (rt := Sim.runtime) (col := Sim.plain) (re := Sim.literals)
              (nu := Sim.numbers)
              (<["pattern" := JStr "foo"]> {["path" := JStr "src/main.ts"]}) Sim.disk
              ["home"; "dev"; "project"; "src"; "main.ts"] ("foo", true) "foo"
              (File ("import x" +:+ nl +:+ "let y" +:+ nl +:+ "foobar();")))
    as (lines & Hrun & _ & Hlines & _); try (vm_compute; reflexivity).
  exists lines. split; [exact Hrun|].
  apply Hlines.
  exists ["home"; "dev"; "project"; "src"; "main.ts"],
    ("import x" +:+ nl +:+ "let y" +:+ nl +:+ "foobar();").
  split; [by vm_compute|]. split; [exact I|].
  exists 2, "foobar();". by vm_compute.
Defined.

(** * Further properties of the code *)

(** ** Writing and reading files *)

(** A write at [p] is invisible at every other path that held, or now
    holds, a regular file. *)
Lemma store_frame whole p s n n' q c :
  store whole p s n = Normal n' → q ≠ p →
  walk q n' = Found (File c) ↔ walk q n = Found (File c).
Proof.
  revert n n' q. induction p as [|k rest IH]; intros n n' q Hs Hq.
  - simpl in Hs. destruct n as [c0|es]; [|done]. injection Hs as <-.
    destruct q as [|d q]; [done|]. by simpl.
  - cbn [store] in Hs. destruct n as [c0|es]; [done|].
    destruct (is_slash (k :: rest)) eqn:Hsl; [done|].
    assert (Hdir : ∃ es', n' = Dir es').
    { destruct (assoc k es) as [child|].
      - destruct (store whole rest s child); [|done]. injection Hs as <-. eauto.
      - destruct rest as [|k' rest']; [injection Hs as <-; eauto|].
        by destruct (is_slash (k' :: rest')). }
    destruct q as [|d q]; [by destruct Hdir as [es' ->]|].
    destruct (is_slash (d :: q)) eqn:Hsq.
    { destruct Hdir as [es' ->]. cbn [walk]. by rewrite Hsq. }
    destruct (assoc k es) as [child|] eqn:Hk.
    + destruct (store whole rest s child) as [child'|] eqn:Hr; [|done].
      injection Hs as <-. cbn [walk]. rewrite Hsq.
      destruct (String.eqb_spec d k) as [->|Hd].
      * rewrite assoc_put, Hk. apply (IH _ _ _ Hr). congruence.
      * by rewrite assoc_put_ne.
    + destruct rest as [|k' rest']; [|by destruct (is_slash (k' :: rest'))].
      injection Hs as <-. cbn [walk]. rewrite Hsq.
      destruct (String.eqb_spec d k) as [->|Hd].
      * rewrite assoc_put, Hk. destruct q; [congruence|]. by simpl.
      * by rewrite assoc_put_ne.
Qed.

(** Where a regular file is, a write goes through. *)
Lemma store_over_file whole p s n c :
  walk p n = Found (File c) → ∃ n', store whole p s n = Normal n'.
Proof.
  revert n. induction p as [|k rest IH]; intros n Hw.
  - simpl in *. injection Hw as ->. eauto.
  - cbn [walk store] in *. destruct n as [c0|es]; [done|].
    destruct (is_slash (k :: rest)); [done|].
    destruct (assoc k es) as [child|]; [|done].
    destruct (IH _ Hw) as [child' ->]. eauto.
Qed.

Lemma resolvePath_string {rt : Runtime} (path : string) :
  ∃ p, resolvePath (JStr path) = Normal p.
Proof. simpl. eauto. Qed.

(** The tools that only read give back the file system they were given. *)
Lemma reading_keeps_disk {rt : Runtime} (name : string) (input : Obj) (w : node) :
  name ≠ "write_file" → name ≠ "bash" → (Modular.executeTool name input w).2 = w.
Proof.
  intros Hw Hb. name_cases name; try done.
  - rewrite read_file_eq. destruct (resolvePath _); [|done]. by destruct (readFileSync _ _).
  - rewrite list_dir_eq. destruct (resolvePath _); [|done]. by destruct (readdirSync _ _).
  - assert (Hname : name ∉ map tool_name Modular.tools).
    { simpl. rewrite !not_elem_of_cons. repeat split; try done. apply not_elem_of_nil. }
    by destruct (unknown_tool_text_eq name input w Hname) as [-> _].
Qed.

(** X1: apart from [bash], the only call of [executeTool] that changes
    the file system is a [write_file] that answers "Written to ..."; the
    change is that file holding the given content. *)
Theorem disk_changes_only_by_writing {rt : Runtime}
    (name : string) (input : Obj) (w w' : node) (text : string) :
  Modular.executeTool name input w = (Normal text, w') →
  name ≠ "bash" → w' ≠ w →
  name = "write_file"
  ∧ ∃ path content p,
      get input "path" = JStr path ∧ get input "content" = JStr content
      ∧ resolvePath (JStr path) = Normal p
      ∧ text = "Written to " +:+ path
      ∧ readFileSync p w' = Normal content.
Proof.
  intros Hrun Hb Hw.
  destruct (decide (name = "write_file")) as [->|Hn].
  - split; [done|]. rewrite write_file_eq in Hrun.
    destruct (nullish (get input "content")); [by injection Hrun as _ <-|].
    destruct (get input "path") as [| | | |path| |] eqn:Hpath;
      try (simpl in Hrun; by injection Hrun as _ <-).
    destruct (resolvePath (JStr path)) as [p|e] eqn:Hp; [|by injection Hrun as _ <-].
    destruct (writeFileSync p (get input "content") w) as [w1|e] eqn:Hwr;
      [|by injection Hrun as _ <-].
    simpl ToString in Hrun. injection Hrun as <- <-.
    destruct (get input "content") as [| | | |content| |] eqn:Hcontent; try done.
    exists path, content, p. repeat split; try done.
    exact (readFileSync_after_write p (JStr content) content w w1 eq_refl Hwr).
  - pose proof (reading_keeps_disk name input w Hn Hb) as Hkeep.
    rewrite Hrun in Hkeep. done.
Qed.

Lemma disk_changes_only_by_writing_witness :
  ∃ w', Modular.executeTool (rt := Sim.runtime) "write_file"
          (<["content" := JStr "fresh"]> {["path" := JStr "README.md"]}) Sim.disk
        = (Normal "Written to README.md", w')
        ∧ readFileSync ["home"; "dev"; "project"; "README.md"] w' = Normal "fresh".
Proof.
  pose (w' := (Modular.executeTool (rt := Sim.runtime) "write_file"
                 (<["content" := JStr "fresh"]> {["path" := JStr "README.md"]}) Sim.disk).2).
  assert (Hrun : Modular.executeTool (rt := Sim.runtime) "write_file"
                   (<["content" := JStr "fresh"]> {["path" := JStr "README.md"]}) Sim.disk
                 = (Normal "Written to README.md", w')) by (vm_compute; reflexivity).
  exists w'. split; [exact Hrun|].
  destruct (disk_changes_only_by_writing (rt := Sim.runtime) _ _ _ _ _ Hrun)
    as (_ & path & content & p & Hpath & Hcontent & Hp & _ & Hread).
  - discriminate.
  - vm_compute. discriminate.
  - vm_compute in Hpath. injection Hpath as <-.
    vm_compute in Hcontent. injection Hcontent as <-.
    vm_compute in Hp. injection Hp as <-. exact Hread.
Defined.

(** X2: a confirmed [write_file] leaves every other file alone: at any
    resolved path other than the one written, a read returns a content
    afterwards exactly when it returned that content before. *)
Theorem write_file_leaves_other_files {rt : Runtime}
    (path content : string) (input : Obj) (p q : Path) (w w' : node) (c : string) :
  get input "path" = JStr path → get input "content" = JStr content →
  resolvePath (JStr path) = Normal p →
  Modular.executeTool "write_file" input w = (Normal ("Written to " +:+ path), w') →
  q ≠ p →
  readFileSync q w' = Normal c ↔ readFileSync q w = Normal c.
Proof.
  intros Hpath Hcontent Hp. rewrite write_file_eq, Hpath, Hcontent.
  simpl nullish. simpl ToString. cbv iota. rewrite Hp.
  destruct (writeFileSync p (JStr content) w) as [w1|e] eqn:Hw; [|by intros [=]].
  intros [= <-] Hq. unfold readFileSync.
  split.
  - destruct (walk q w1) as [[c1|es]| |] eqn:H1; try done.
    intros [= ->]. by rewrite (proj1 (store_frame _ _ _ _ _ q c Hw Hq) H1).
  - destruct (walk q w) as [[c1|es]| |] eqn:H1; try done.
    intros [= ->]. by rewrite (proj2 (store_frame _ _ _ _ _ q c Hw Hq) H1).
Qed.

Lemma write_file_leaves_other_files_witness :
  readFileSync ["home"; "dev"; "project"; "src"; "util.ts"]
    (Modular.executeTool (rt := Sim.runtime) "write_file"
       (<["content" := JStr "fresh"]> {["path" := JStr "README.md"]}) Sim.disk).2
  = Normal "export {}".
Proof.
  apply (write_file_leaves_other_files (rt := Sim.runtime) "README.md" "fresh"
           (<["content" := JStr "fresh"]> {["path" := JStr "README.md"]})
           ["home"; "dev"; "project"; "README.md"]
           ["home"; "dev"; "project"; "src"; "util.ts"] Sim.disk);
    try (vm_compute; reflexivity); discriminate.
Defined.

(** X3: the last write wins. Once a write to a path has been confirmed,
    a second [write_file] of any string to the same path is confirmed
    too, and [read_file] then returns the second content. *)
Theorem second_write_replaces_first {rt : Runtime}
    (path first second : string) (input1 input2 read : Obj) (w w1 : node) :
  get input1 "path" = JStr path → get input1 "content" = JStr first →
  get input2 "path" = JStr path → get input2 "content" = JStr second →
  get read "path" = JStr path →
  Modular.executeTool "write_file" input1 w = (Normal ("Written to " +:+ path), w1) →
  ∃ w2,
    Modular.executeTool "write_file" input2 w1 = (Normal ("Written to " +:+ path), w2)
    ∧ Modular.executeTool "read_file" read w2 = (Normal second, w2).
Proof.
  intros Hp1 Hc1 Hp2 Hc2 Hr.
  destruct (resolvePath_string path) as [p Hp].
  rewrite write_file_eq, Hp1, Hc1.
  simpl nullish. simpl ToString. cbv iota. rewrite Hp.
  destruct (writeFileSync p (JStr first) w) as [w1'|e] eqn:Hw1; [|by intros [=]].
  intros [= <-].
  destruct (store_over_file p p second w1' first (store_walk _ _ _ _ _ Hw1)) as [w2 Hw2].
  exists w2. rewrite write_file_eq, read_file_eq, Hp2, Hc2, Hr.
  simpl nullish. simpl ToString. cbv iota. rewrite Hp.
  unfold writeFileSync. rewrite Hw2. split; [done|].
  unfold readFileSync. by rewrite (store_walk _ _ _ _ _ Hw2).
Qed.

Lemma second_write_replaces_first_witness :
  ∃ w2,
    Modular.executeTool (rt := Sim.runtime) "write_file"
      (<["content" := JStr "two"]> {["path" := JStr "n.txt"]})
      (Modular.executeTool (rt := Sim.runtime) "write_file"
         (<["content" := JStr "one"]> {["path" := JStr "n.txt"]}) Sim.disk).2
    = (Normal "Written to n.txt", w2)
    ∧ Modular.executeTool (rt := Sim.runtime) "read_file" {["path" := JStr "n.txt"]} w2
      = (Normal "two", w2).
Proof.
  apply (second_write_replaces_first (rt := Sim.runtime) "n.txt" "one" "two"
           (<["content" := JStr "one"]> {["path" := JStr "n.txt"]})
           (<["content" := JStr "two"]> {["path" := JStr "n.txt"]})
           {["path" := JStr "n.txt"]} Sim.disk);
    vm_compute; reflexivity.
Defined.

(** ** Joining and splitting *)



Lemma split_on_plain c (s : string) : has_char c s = false → split_on c s = [s].
Proof.
  induction s as [|a s IH]; [done|]. simpl.
  intros [Ha Hs]%orb_false_iff. rewrite Ha. by rewrite (IH Hs).
Qed.

Lemma split_on_separator c (s rest : string) :
  has_char c s = false → split_on c (s +:+ String c rest) = s :: split_on c rest.
Proof.
  induction s as [|a s IH].
  - intros _. change ("" +:+ String c rest) with (String c rest). simpl.
    by rewrite Ascii.eqb_refl.
  - simpl has_char. intros [Ha Hs]%orb_false_iff.
    rewrite append_cons. simpl. rewrite Ha. by rewrite (IH Hs).
Qed.

(** Splitting undoes joining, as long as no piece holds the separator
    and there is a piece at all. *)
Lemma split_on_join c (l : list string) :
  l ≠ [] → Forall (fun s => has_char c s = false) l →
  split_on c (join (String c "") l) = l.
Proof.
  induction l as [|x rest IH]; [done|]. intros _ Hall.
  apply Forall_cons in Hall as [Hx Hrest].
  destruct rest as [|y rest].
  - simpl. by apply split_on_plain.
  - change (join (String c "") (x :: y :: rest))
      with (x +:+ String c (join (String c "") (y :: rest))).
    rewrite (split_on_separator _ _ _ Hx). f_equal. by apply IH.
Qed.

(** ** Listing a directory *)




(** X5: [read_file] returns the content of the regular file at the
    resolved path, to the character, and a text that starts with
    "Error: " when the path names no regular file (nothing there, or a
    directory); [list_dir] likewise answers with "Error: " when the path
    names no directory. Neither changes the file system. *)
Theorem wrong_targets_are_reported {rt : Runtime}
    (path : string) (input : Obj) (p : Path) (w : node) :
  get input "path" = JStr path →
  resolvePath (JStr path) = Normal p →
  (∀ c, walk p w = Found (File c) →
        Modular.executeTool "read_file" input w = (Normal c, w))
  ∧ ((∀ c, walk p w ≠ Found (File c)) →
     ∃ text, Modular.executeTool "read_file" input w = (Normal text, w)
             ∧ String.prefix "Error: " text = true)
  ∧ ((∀ entries, walk p w ≠ Found (Dir entries)) →
     ∃ text, Modular.executeTool "list_dir" input w = (Normal text, w)
             ∧ String.prefix "Error: " text = true).
Proof.
  intros Hpath Hp. rewrite read_file_eq, list_dir_eq, Hpath, Hp.
  unfold readFileSync, readdirSync.
  split; [|split].
  - by intros c ->.
  - intros Hno. destruct (walk p w) as [[c|es]| |].
    + by destruct (Hno c).
    + eexists; split; [reflexivity|]. apply prefix_append.
    + eexists; split; [reflexivity|]. apply prefix_append.
    + eexists; split; [reflexivity|]. apply prefix_append.
  - intros Hno. destruct (walk p w) as [[c|es]| |].
    + eexists; split; [reflexivity|]. apply prefix_append.
    + by destruct (Hno es).
    + eexists; split; [reflexivity|]. apply prefix_append.
    + eexists; split; [reflexivity|]. apply prefix_append.
Qed.

Lemma wrong_targets_are_reported_witness :
  ∃ text, Modular.executeTool (rt := Sim.runtime) "read_file" {["path" := JStr "src"]}
            Sim.disk = (Normal text, Sim.disk)
          ∧ String.prefix "Error: " text = true.
Proof.
  assert (Hpath : get {["path" := JStr "src"]} "path" = JStr "src")
    by (vm_compute; reflexivity).
  assert (Hp : resolvePath (rt := Sim.runtime) (JStr "src")
               = Normal ["home"; "dev"; "project"; "src"]) by (vm_compute; reflexivity).
  destruct (wrong_targets_are_reported (rt := Sim.runtime) "src" {["path" := JStr "src"]}
              ["home"; "dev"; "project"; "src"] Sim.disk Hpath Hp) as (_ & Hread & _).
  apply Hread. intros c. vm_compute. discriminate.
Defined.

(** ** Resolving paths *)

Lemma clean_parts (c : string) :
  clean c = true →
  has_char "/"%char c = false ∧ String.eqb c "" = false
  ∧ String.eqb c "." = false ∧ String.eqb c ".." = false.
Proof.
  unfold clean. rewrite !andb_true_iff, !negb_true_iff. tauto.
Qed.

Lemma normalize_onto_clean (acc q : Path) :
  Forall (fun c => clean c = true) q → normalize_onto acc q = acc ++ q.
Proof.
  revert acc. induction q as [|c q IH]; intros acc Hq; simpl.
  - by rewrite app_nil_r.
  - apply Forall_cons in Hq as [Hc Hq].
    destruct (clean_parts c Hc) as (_ & -> & -> & ->). simpl.
    rewrite (IH _ Hq). by rewrite <- app_assoc.
Qed.

(** Parsing the text of a normalised relative path gives its components. *)
Lemma split_join_clean (q : Path) :
  q ≠ [] → Forall (fun c => clean c = true) q →
  split_on "/"%char (join "/" q) = q.
Proof.
  intros Hne Hq. apply (split_on_join "/"%char q Hne).
  eapply Forall_impl; [exact Hq|]. intros c Hc. by destruct (clean_parts c Hc).
Qed.

Lemma normalize_join_clean (acc q : Path) :
  Forall (fun c => clean c = true) q →
  normalize_onto acc (split_on "/"%char (join "/" q)) = acc ++ q.
Proof.
  intros Hq. destruct q as [|c q].
  - simpl. by rewrite app_nil_r.
  - rewrite split_join_clean by done. by apply normalize_onto_clean.
Qed.

Lemma join_clean_is_relative (q : Path) :
  Forall (fun c => clean c = true) q → isAbsolute (join "/" q) = false.
Proof.
  destruct q as [|c q]; [done|]. intros [Hc _]%Forall_cons.
  destruct (clean_parts c Hc) as (Hslash & Hempty & _).
  destruct c as [|a c]; [done|]. simpl in Hslash.
  apply orb_false_iff in Hslash as [Ha _].
  assert (Hhead : ∃ rest, join "/" (String a c :: q) = String a rest).
  { destruct q as [|d q]; [by exists c|].
    by exists (c +:+ "/" +:+ join "/" (d :: q)). }
  destruct Hhead as [rest ->]. unfold isAbsolute. cbn [String.prefix].
  destruct (ascii_dec "/" a) as [<-|]; [|done]. by rewrite Ascii.eqb_refl in Ha.
Qed.

Lemma ends_with_slash_plain (c : string) :
  has_char "/"%char c = false → ends_with_slash c = false.
Proof.
  induction c as [|a c IH]; [done|]. simpl.
  intros [Ha Hc]%orb_false_iff. destruct c; [done|]. by apply IH.
Qed.

Lemma ends_with_slash_append (a b : string) :
  b ≠ "" → ends_with_slash (a +:+ b) = ends_with_slash b.
Proof.
  intros Hb. induction a as [|x a IH]; [done|].
  rewrite append_cons. cbn [ends_with_slash].
  destruct (a +:+ b) eqn:Hab; [|done].
  destruct a; [done|]. by rewrite append_cons in Hab.
Qed.

Lemma join_clean_nonempty (c : string) (q : Path) :
  clean c = true → join "/" (c :: q) ≠ "".
Proof.
  intros Hc. destruct (clean_parts c Hc) as (_ & Hempty & _).
  destruct c as [|a c]; [done|]. by destruct q.
Qed.

(** The text of a normalised path does not end in a slash. *)
Lemma ends_with_slash_join (q : Path) :
  Forall (fun c => clean c = true) q → ends_with_slash (join "/" q) = false.
Proof.
  induction q as [|c q IH]; [done|]. intros [Hc Hq]%Forall_cons.
  destruct q as [|d q].
  - simpl. apply ends_with_slash_plain. by destruct (clean_parts c Hc).
  - change (join "/" (c :: d :: q)) with (c +:+ "/" +:+ join "/" (d :: q)).
    pose proof (join_clean_nonempty d q (Forall_inv Hq)) as Hne.
    rewrite ends_with_slash_append.
    + rewrite ends_with_slash_append by done. by apply IH.
    + by destruct (join "/" (d :: q)).
Qed.

Lemma last_clean (c : string) (p : Path) :
  Forall (fun c => clean c = true) (c :: p) →
  String.eqb (List.last ("" :: c :: p) "") "." = false.
Proof.
  revert c. induction p as [|d p IH]; intros c [Hc Hp]%Forall_cons.
  - simpl. by destruct (clean_parts c Hc) as (_ & _ & -> & _).
  - by apply IH.
Qed.

(** X6: a relative path is resolved against the working directory, and
    the absolute path of the same file passes through: for normalised
    components [q], the text [q1/.../qn] and the absolute text
    [/cwd/q1/.../qn] resolve to the same place, so [read_file] answers
    the same for both. *)
Theorem relative_and_absolute_agree {rt : Runtime}
    (q : Path) (relative absolute : Obj) (w : node) :
  Forall (fun c => clean c = true) cwd →
  Forall (fun c => clean c = true) q →
  get relative "path" = JStr (join "/" q) →
  get absolute "path" = JStr (render (cwd ++ q)) →
  resolvePath (JStr (join "/" q)) = Normal (cwd ++ q)
  ∧ resolvePath (JStr (render (cwd ++ q))) = Normal (cwd ++ q)
  ∧ Modular.executeTool "read_file" relative w
    = Modular.executeTool "read_file" absolute w.
Proof.
  intros Hcwd Hq Hrel Habs.
  assert (H1 : resolvePath (JStr (join "/" q)) = Normal (cwd ++ q)).
  { unfold resolvePath, asks_for_directory. rewrite (join_clean_is_relative q Hq).
    rewrite normalize_join_clean, ends_with_slash_join by done.
    by destruct (cwd ++ q). }
  assert (H2 : resolvePath (JStr (render (cwd ++ q))) = Normal (cwd ++ q)).
  { assert (Hall : Forall (fun c => clean c = true) (cwd ++ q)) by by apply Forall_app.
    unfold resolvePath, asks_for_directory, render, isAbsolute. rewrite prefix_append.
    change (split_on "/"%char ("/" +:+ join "/" (cwd ++ q)))
      with ("" :: split_on "/"%char (join "/" (cwd ++ q))).
    change (normalize_onto [] ("" :: split_on "/"%char (join "/" (cwd ++ q))))
      with (normalize_onto [] (split_on "/"%char (join "/" (cwd ++ q)))).
    rewrite normalize_join_clean by done. simpl app.
    destruct (cwd ++ q) as [|c rest] eqn:Hp; [done|].
    rewrite split_join_clean, last_clean by done.
    rewrite ends_with_slash_append; [by rewrite ends_with_slash_join|].
    apply join_clean_nonempty. by apply Forall_inv in Hall. }
  split; [done|]. split; [done|].
  by rewrite !read_file_eq, Hrel, Habs, H1, H2.
Qed.

Lemma relative_and_absolute_agree_witness :
  Modular.executeTool (rt := Sim.runtime) "read_file" {["path" := JStr "src/util.ts"]} Sim.disk
  = Modular.executeTool (rt := Sim.runtime) "read_file"
      {["path" := JStr "/home/dev/project/src/util.ts"]} Sim.disk.
Proof.
  apply (relative_and_absolute_agree (rt := Sim.runtime) ["src"; "util.ts"]
           {["path" := JStr "src/util.ts"]}
           {["path" := JStr "/home/dev/project/src/util.ts"]} Sim.disk).
  - repeat constructor.
  - repeat constructor.
  - vm_compute. reflexivity.
  - vm_compute. reflexivity.
Defined.

(** ** The Turn Loop, iteration by iteration *)

(** X7: the transcript is append-only: whatever the run does and however
    it ends, the transcript it started the iteration with is a prefix of
    the transcript it ends with. *)
Theorem transcript_is_append_only {rt : Runtime} {api : Anthropic} {tk : Tokenizer}
    (fuel : nat) (s : Agent.State) :
  Agent.messages s `prefix_of` Agent.messages (state_of (Agent.loop fuel s)).
Proof.
  revert fuel s.
  apply (loop_relates (fun a b => Agent.messages a `prefix_of` Agent.messages b)).
  - done.
  - intros a b c Hab Hbc. by etrans.
  - done.
  - intros s response _. by apply prefix_app_r.
  - intros s response results w0 started _ _. by apply prefix_app_r.
  - done.
Qed.

(** X8: a run keeps the turns of the transcript alternating between user
    and assistant, beginning with the user's prompt; when the run
    returns, the number of turns is even, so the last turn is the
    assistant's. *)
Theorem transcript_alternates {rt : Runtime} {api : Anthropic} {tk : Tokenizer}
    (userMessage : string) (stats : SessionStats.t) (w : node) (fuel : nat) :
  alternates user (Agent.messages (state_of (Agent.runAgent userMessage stats w fuel))) = true
  ∧ (∀ s, Agent.runAgent userMessage stats w fuel = Agent.Returned s →
          Nat.even (length (Agent.messages s)) = true).
Proof.
  assert (Happ : ∀ ms r m, alternates r ms = true →
            alternates r (ms ++ [m])
            = role_eqb (role m) (if Nat.even (length ms) then r else other r)).
  { induction ms as [|m0 ms IH]; intros r m.
    - simpl. by rewrite andb_true_r.
    - cbn [alternates app length]. intros [Hm0 Hms]%andb_true_iff.
      rewrite Hm0, (IH _ _ Hms). simpl andb. rewrite Nat.even_succ, <- Nat.negb_even.
      by destruct (Nat.even (length ms)), r. }
  assert (Hinv : ∀ fuel s,
            alternates user (Agent.messages s) = true →
            Nat.odd (length (Agent.messages s)) = true →
            alternates user (Agent.messages (state_of (Agent.loop fuel s))) = true
            ∧ (∀ s', Agent.loop fuel s = Agent.Returned s' →
                     Nat.even (length (Agent.messages s')) = true)).
  { clear fuel. induction fuel as [|fuel IH]; intros s Halt Hodd; [done|].
    assert (Heven : Nat.even (length (Agent.messages s)) = false).
    { by rewrite <- Nat.negb_odd, Hodd. }
    rewrite loop_step.
    destruct (messages_create Agent.systemPrompt (Agent.messages s))
      as [response|e] eqn:Hresp; [|by split].
    destruct (run_tools _ (Agent.disk s)) as [[[results|e] w0] started]; [|by split].
    case_bool_decide.
    - simpl. rewrite (Happ _ _ _ Halt), Heven. split; [done|].
      intros s' [= <-]. simpl. rewrite length_app. simpl.
      rewrite Nat.add_1_r, Nat.even_succ. done.
    - apply IH; cbn [after_tools Agent.messages].
      + rewrite app_assoc.
        assert (H1 : alternates user
                       (Agent.messages s
                        ++ [mkMessage assistant (Blocks (response_content response))])
                     = true) by (by rewrite (Happ _ _ _ Halt), Heven).
        rewrite (Happ _ _ _ H1), length_app. simpl length.
        by rewrite Nat.add_1_r, Nat.even_succ, Hodd.
      + rewrite !length_app, Nat.odd_add, Hodd. done. }
  apply Hinv; done.
Qed.

(** X9: no field of the session statistics goes down during a run of the
    agent, however the run ends, and [maxContextTokens] is not touched at
    all. *)
Theorem statistics_only_grow {rt : Runtime} {api : Anthropic} {tk : Tokenizer}
    (userMessage : string) (stats : SessionStats.t) (w : node) (fuel : nat) :
  stats_le stats (Agent.sessionStats (state_of (Agent.runAgent userMessage stats w fuel)))
  ∧ SessionStats.maxContextTokens
      (Agent.sessionStats (state_of (Agent.runAgent userMessage stats w fuel)))
    = SessionStats.maxContextTokens stats.
Proof.
  unfold Agent.runAgent. split.
  - exact (sessionStats_never_decrease fuel _).
  - apply (loop_relates (fun a b =>
             SessionStats.maxContextTokens (Agent.sessionStats b)
             = SessionStats.maxContextTokens (Agent.sessionStats a))); try done.
    intros a b c Hab Hbc. by rewrite Hbc.
Qed.

(** X10: [loopCount] counts the requests to the model: at the end of
    every run it equals the number of requests the run has issued,
    including one that failed. *)
Theorem loopCount_counts_requests {rt : Runtime} {api : Anthropic} {tk : Tokenizer}
    (userMessage : string) (stats : SessionStats.t) (w : node) (fuel : nat) :
  Agent.loopCount (state_of (Agent.runAgent userMessage stats w fuel))
  = requests_issued (Agent.trace (state_of (Agent.runAgent userMessage stats w fuel))).
Proof.
  unfold Agent.runAgent.
  pose proof (loop_relates (fun a b =>
                (Agent.loopCount b + requests_issued (Agent.trace a)
                 = Agent.loopCount a + requests_issued (Agent.trace b))%N)) as H.
  specialize (H (fun _ => eq_refl)).
  match type of H with ?A → _ => assert (Htrans : A) by (intros a b c; lia) end.
  specialize (H Htrans).
  match type of H with ?A → _ =>
    assert (Hfail : A)
      by (intros s; simpl; rewrite requests_issued_app; unfold requests_issued; simpl; lia) end.
  specialize (H Hfail).
  match type of H with ?A → _ =>
    assert (Hanswer : A)
      by (intros s r _; simpl; rewrite requests_issued_app; unfold requests_issued; simpl; lia)
  end.
  specialize (H Hanswer).
  match type of H with ?A → _ =>
    assert (Htools : A)
      by (intros s r results w0 started _ _; cbn [after_tools Agent.loopCount Agent.trace];
          rewrite !requests_issued_app, requests_issued_executions;
          unfold requests_issued; simpl; lia)
  end.
  specialize (H Htools).
  match type of H with ?A → _ =>
    assert (Habort : A)
      by (intros s r e w0 started _ _; cbn [after_abort Agent.loopCount Agent.trace];
          rewrite !requests_issued_app, requests_issued_executions;
          unfold requests_issued; simpl; lia)
  end.
  specialize (H Habort fuel (Agent.mkState [mkMessage user (Text userMessage)] 0 stats w [])).
  simpl in H. unfold requests_issued in H at 1. simpl in H. lia.
Qed.

(** X11: a run is only ever aborted by the model or by [spawn]. When
    [runAgent] ends with an exception, then either the request to the
    model threw it for the transcript the run holds at that point, and
    that request is the last thing the run did; or the last thing the
    run did was to start a [bash] tool, and the exception is the one
    that [spawn] threw for its command. No exception of the path or
    file-system layer ends a run. *)
Theorem only_the_model_or_spawn_aborts_a_run
    {rt : Runtime} {api : Anthropic} {tk : Tokenizer}
    (userMessage : string) (stats : SessionStats.t) (w : node) (fuel : nat)
    (e : JSError) (s' : Agent.State) :
  Agent.runAgent userMessage stats w fuel = Agent.Thrown e s' →
  (messages_create Agent.systemPrompt (Agent.messages s') = Throw e
   ∧ ∃ tr, Agent.trace s' = tr ++ [ModelRequest (Agent.messages s')])
  ∨ (∃ tr id input w0,
       Agent.trace s' = tr ++ [ToolExecution id "bash" input]
       ∧ spawn (get input "command") w0 = (SpawnThrew e, Agent.disk s')).
Proof.
  unfold Agent.runAgent.
  generalize (Agent.mkState [mkMessage user (Text userMessage)] 0 stats w []).
  induction fuel as [|fuel IH]; intros s; [done|].
  rewrite loop_step.
  destruct (messages_create Agent.systemPrompt (Agent.messages s)) as [response|e'] eqn:Hresp.
  - destruct (run_tools _ (Agent.disk s)) as [[[results|e'] w0] started] eqn:Hrun.
    + case_bool_decide; [done|]. apply IH.
    + intros [= <- <-]. right.
      destruct (run_tools_threw _ _ _ _ _ Hrun)
        as (before & [[id name] input] & after & w1 & -> & _ & Hname & Hspawn).
      simpl in Hname. subst name.
      exists (Agent.trace s ++ [ModelRequest (Agent.messages s)] ++ map execution before),
        id, input, w1.
      split; [|done]. cbn [after_abort Agent.trace].
      by rewrite map_app, !app_assoc.
  - intros [= <- <-]. left. simpl. split; [done|]. eauto.
Qed.

Lemma only_the_model_or_spawn_aborts_a_run_witness :
  (∃ s', Agent.runAgent (rt := Sim.runtime) (api := Cases.offline) (tk := Sim.tokenizer)
           "hi" (SessionStats.mk 0 0 200000 0) Sim.disk 3
         = Agent.Thrown (mkError "APIConnectionError" None "Connection error.") s'
         ∧ ∃ tr, Agent.trace s' = tr ++ [ModelRequest (Agent.messages s')])
  ∧ (∃ s', Agent.runAgent (rt := Sim.runtime) (api := Cases.careless) (tk := Sim.tokenizer)
             "run it" (SessionStats.mk 0 0 200000 0) Sim.disk 3
           = Agent.Thrown (Sim.null_bytes Cases.nul_command) s'
           ∧ ∃ tr id input,
               Agent.trace s' = tr ++ [ToolExecution id "bash" input]).
Proof.
  split.
  - eexists. split; [vm_compute; reflexivity|].
    destruct (only_the_model_or_spawn_aborts_a_run (rt := Sim.runtime)
                (api := Cases.offline) (tk := Sim.tokenizer) "hi"
                (SessionStats.mk 0 0 200000 0) Sim.disk 3 _ _ eq_refl)
      as [[_ Htrace]|(tr & id & input & w0 & Htrace & _)]; [exact Htrace|].
    vm_compute in Htrace. by destruct tr as [|? [|? ?]].
  - eexists. split; [vm_compute; reflexivity|].
    destruct (only_the_model_or_spawn_aborts_a_run (rt := Sim.runtime)
                (api := Cases.careless) (tk := Sim.tokenizer) "run it"
                (SessionStats.mk 0 0 200000 0) Sim.disk 3 _ _ eq_refl)
      as [[_ [tr Htrace]]|(tr & id & input & w0 & Htrace & _)]; [|by eauto].
    vm_compute in Htrace. by destruct tr as [|? [|? [|? ?]]].
Defined.

(** Requests that only read all return, and leave the file system as it
    was. *)
Lemma run_tools_keep_disk {rt : Runtime} (requests : list Request) (w : node) :
  Forall (fun rq => may_write rq = false) requests →
  ∃ results, run_tools requests w = (Normal results, w, requests).
Proof.
  induction requests as [|rq rest IH]; intros Hall; [by exists []|].
  apply Forall_cons in Hall as [Hrq Hrest]. simpl.
  unfold may_write in Hrq. apply orb_false_iff in Hrq as [Hw Hb].
  apply String.eqb_neq in Hw, Hb.
  pose proof (reading_keeps_disk rq.1.2 rq.2 w Hw Hb) as Hkeep.
  destruct (executeTool_returns rq.1.2 rq.2 w Hb) as (text & w' & Hrun).
  rewrite Hrun in Hkeep |- *. simpl in Hkeep. subst w'.
  destruct (IH Hrest) as [results ->]. eauto.
Qed.

(** X12: as long as the model asks for neither [write_file] nor [bash],
    a run leaves the file system exactly as it found it, however many
    tools it runs and however it ends. *)
Theorem reading_runs_keep_the_disk {rt : Runtime} {api : Anthropic} {tk : Tokenizer}
    (userMessage : string) (stats : SessionStats.t) (w : node) (fuel : nat) :
  (∀ messages response,
     messages_create Agent.systemPrompt messages = Normal response →
     Forall (fun rq => may_write rq = false) (tool_requests (response_content response))) →
  Agent.disk (state_of (Agent.runAgent userMessage stats w fuel)) = w.
Proof.
  intros Hmodel. unfold Agent.runAgent.
  apply (loop_relates (fun a b => Agent.disk b = Agent.disk a)); try done.
  - intros a b c Hab Hbc. by rewrite Hbc.
  - intros s response results w0 started Hresp Hrun.
    destruct (run_tools_keep_disk _ (Agent.disk s) (Hmodel _ _ Hresp)) as [results' Hkeep].
    rewrite Hkeep in Hrun. by injection Hrun as _ <- _.
  - intros s response e w0 started Hresp Hrun.
    destruct (run_tools_keep_disk _ (Agent.disk s) (Hmodel _ _ Hresp)) as [results' Hkeep].
    by rewrite Hkeep in Hrun.
Qed.

Lemma reading_runs_keep_the_disk_witness :
  Agent.disk (state_of (Agent.runAgent (rt := Sim.runtime) (api := Cases.reader)
                          (tk := Sim.tokenizer) "look" (SessionStats.mk 0 0 200000 0)
                          Sim.disk 4))
  = Sim.disk
  ∧ requests_issued
      (Agent.trace (state_of (Agent.runAgent (rt := Sim.runtime) (api := Cases.reader)
                                (tk := Sim.tokenizer) "look" (SessionStats.mk 0 0 200000 0)
                                Sim.disk 4)))
    = 2%N.
Proof.
  split; [|vm_compute; reflexivity].
  apply (reading_runs_keep_the_disk (rt := Sim.runtime) (api := Cases.reader)
           (tk := Sim.tokenizer)).
  intros messages response. simpl.
  destruct messages as [|m [|m' rest]]; intros [= <-]; simpl; repeat constructor.
Defined.

(** ** The two Turn Loops *)

Lemma tools_agree {rt : Runtime} (rq : Request) (w : node) :
  lacks_content rq = false →
  SingleFile.executeTool rq.1.2 rq.2 w = Modular.executeTool rq.1.2 rq.2 w.
Proof.
  unfold lacks_content, SingleFile.executeTool, Modular.executeTool.
  destruct (String.eqb rq.1.2 "read_file"); [done|].
  destruct (String.eqb rq.1.2 "write_file"); [|done].
  simpl. by intros ->.
Qed.

Section TwoLoops.
Context {rt : Runtime} {api : Anthropic} {tk : Tokenizer} {sr : StopReason}.

Lemma forBlocks_agree bs hasToolUse toolResults w tr :
  Forall (fun rq => lacks_content rq = false) (tool_requests bs) →
  SingleFileAgent.forBlocks bs hasToolUse toolResults w tr
  = Agent.forBlocks bs hasToolUse toolResults w tr.
Proof.
  revert hasToolUse toolResults w tr.
  induction bs as [|b bs IH]; intros h acc w tr Hall; [done|].
  destruct b as [text|id name input|id c|]; simpl in *; try by apply IH.
  apply Forall_cons in Hall as [Hrq Hrest].
  rewrite (tools_agree (id, name, input) w Hrq). simpl.
  destruct (Modular.executeTool name input w) as [[result|e] w']; [|done].
  by apply IH.
Qed.

Lemma loops_agree fuel (s : Agent.State) :
  (∀ messages response,
     messages_create Agent.systemPrompt messages = Normal response →
     Forall (fun rq => lacks_content rq = false)
            (tool_requests (response_content response))) →
  SingleFileAgent.loop fuel
    (SingleFileAgent.mkState (Agent.messages s) (Agent.disk s) (Agent.trace s))
  = without_statistics (Agent.loop fuel s).
Proof.
  intros Hmodel. revert s. induction fuel as [|fuel IH]; intros s; [done|].
  cbn [Agent.loop SingleFileAgent.loop SingleFileAgent.messages
       SingleFileAgent.disk SingleFileAgent.trace].
  change SingleFileAgent.systemPrompt with Agent.systemPrompt.
  destruct (messages_create Agent.systemPrompt (Agent.messages s)) as [response|e] eqn:Hresp;
    [|done].
  rewrite (forBlocks_agree _ _ _ _ _ (Hmodel _ _ Hresp)).
  destruct (Agent.forBlocks _ _ _ _ _) as [[[[hasToolUse toolResults]|e] w] tr]; [|done].
  destruct hasToolUse; [|done].
  rewrite andb_false_r. by rewrite <- IH.
Qed.
End TwoLoops.

(** X13: the Turn Loop of the single-file variant and that of the
    modularized variant do the same thing: given the same answers from
    the model, none of which asks [write_file] to write without a
    content, both runs end the same way with the same transcript, the
    same file system and the same sequence of requests and tool
    executions, whatever [stop_reason] the replies carry. *)
Theorem both_loops_agree
    {rt : Runtime} {api : Anthropic} {tk : Tokenizer} {sr : StopReason}
    (userMessage : string) (stats : SessionStats.t) (w : node) (fuel : nat) :
  (∀ messages response,
     messages_create Agent.systemPrompt messages = Normal response →
     Forall (fun rq => lacks_content rq = false)
            (tool_requests (response_content response))) →
  SingleFileAgent.runAgent userMessage w fuel
  = without_statistics (Agent.runAgent userMessage stats w fuel).
Proof.
  intros Hmodel.
  exact (loops_agree fuel
           (Agent.mkState [mkMessage user (Text userMessage)] 0 stats w []) Hmodel).
Qed.

Lemma both_loops_agree_witness :
  SingleFileAgent.runAgent (rt := Sim.runtime) (api := Cases.reader) (sr := Cases.end_turn)
    "look" Sim.disk 4
  = without_statistics
      (Agent.runAgent (rt := Sim.runtime) (api := Cases.reader) (tk := Sim.tokenizer)
         "look" (SessionStats.mk 0 0 200000 0) Sim.disk 4).
Proof.
  apply (both_loops_agree (rt := Sim.runtime) (api := Cases.reader)
           (tk := Sim.tokenizer) (sr := Cases.end_turn)).
  intros messages response. simpl.
  destruct messages as [|m [|m' rest]]; intros [= <-]; simpl; repeat constructor.
Defined.

(** ** The search, beyond its matches *)

Lemma relative_under (from q : Path) : relative from (from ++ q) = join "/" q.
Proof.
  unfold relative. f_equal. induction from as [|f from IH]; simpl.
  - by destruct q.
  - by rewrite String.eqb_refl.
Qed.

(** A path that leads to a regular file carries no closing slash. *)
Lemma walk_file_unslashed (p : Path) (n : node) (c : string) :
  walk p n = Found (File c) → unslashed p = p.
Proof.
  revert n. induction p as [|k rest IH]; intros n Hw; [done|].
  cbn [walk unslashed] in *. destruct n as [c0|es]; [done|].
  destruct (is_slash (k :: rest)); [done|].
  destruct (assoc k es) as [child|]; [|done]. by rewrite (IH _ Hw).
Qed.

Lemma unslashed_app (a b : Path) :
  Forall (fun c => c ≠ "") a → unslashed (a ++ b) = a ++ unslashed b.
Proof.
  induction a as [|c a IH]; [done|]. intros [Hc Ha]%Forall_cons.
  cbn [app unslashed]. rewrite (IH Ha).
  assert (Hsl : is_slash (c :: a ++ b) = false).
  { simpl. destruct (a ++ b); [|done]. by apply String.eqb_neq. }
  by rewrite Hsl.
Qed.

Lemma visible_Dir recursive entries :
  visible recursive (Dir entries)
  = Dir (map (fun e => (e.1, view recursive e.1 e.2)) entries).
Proof.
  cbn [visible]. f_equal.
  induction entries as [|[name child] rest IH]; [done|].
  rewrite IH. by destruct child.
Qed.

Section SearchLimits.
Context {rt : Runtime} {col : Colorize} {re : RegExpEngine} {nu : Numbers}.

(** X14: [grep_search] never throws and never writes: for every argument
    object it answers with a text and hands back the file system it was
    given. *)
Theorem grep_search_only_reads (input : Obj) (w : node) :
  ∃ text, Enhanced.grep_search input w = (Normal text, w).
Proof.
  unfold Enhanced.grep_search, try_catch, bindM, raise, reading, ret.
  destruct (resolvePath (get input "path")) as [targetPath|e]; [|eauto].
  destruct (RegExp_new _ _) as [regex|e]; [|eauto].
  destruct (Enhanced.collect _ _ _ _ _) as [results|e]; [|eauto].
  destruct (ToString _) as [shown|e]; [|eauto].
  destruct results; eauto.
Qed.

(** X15: the failures of a search are reported in a fixed order. A path
    that is not a string is reported as a search error whatever the
    pattern is; with a path that resolves, a pattern that does not
    compile is reported as an invalid pattern whether or not the target
    exists; a missing target is reported only when the pattern compiles. *)
Theorem search_failures_in_order (input : Obj) (w : node) :
  let flags :=
    if truthy (if nullish (get input "case_sensitive") then JBool false
               else get input "case_sensitive") then "g" else "gi" in
  (is_string (get input "path") = false →
   Enhanced.grep_search input w
   = (Normal (colorize_error
                ("Error during search: "
                 +:+ errorToString (TypeError "path" "string" (get input "path")))), w))
  ∧ (∀ p e,
       resolvePath (get input "path") = Normal p →
       RegExp_new (get input "pattern") flags = Throw e →
       Enhanced.grep_search input w
       = (Normal (colorize_error ("Invalid regex pattern: " +:+ errorToString e)), w))
  ∧ (∀ p regex,
       resolvePath (get input "path") = Normal p →
       RegExp_new (get input "pattern") flags = Normal regex →
       walk p w = NoEnt →
       Enhanced.grep_search input w
       = (Normal (colorize_error ("Error during search: "
                                  +:+ errorToString (ENOENT "stat" p))), w)).
Proof.
  intros flags. unfold Enhanced.grep_search, try_catch, bindM, raise, reading, ret.
  fold flags. split; [|split].
  - by destruct (get input "path").
  - intros p e -> ->. done.
  - intros p regex -> -> Hwalk. unfold Enhanced.collect. by rewrite Hwalk.
Qed.

(** The search collects exactly the output lines of the matching lines
    of the files it is to read. *)
Lemma collect_elem regex fileExtensions recursive targetPath root results r :
  Enhanced.collect regex fileExtensions recursive targetPath root = Normal results →
  r ∈ results ↔
  ∃ filePath content,
    scanned recursive targetPath root filePath content
    ∧ hit regex fileExtensions filePath content r.
Proof.
  intros Hcollect.
  assert (Hwalk : ∃ target, walk targetPath root = Found target).
  { unfold Enhanced.collect in Hcollect.
    destruct (walk targetPath root) as [target| |]; [eauto|done..]. }
  destruct Hwalk as [target Hwalk].
  destruct (collect_report regex fileExtensions recursive targetPath root target Hwalk)
    as (lines & Hlines & Hreport).
  rewrite Hcollect in Hlines. injection Hlines as <-.
  by apply report_elem.
Qed.

Lemma scanned_in_components recursive dirPath entries filePath content :
  scanned_in recursive dirPath entries filePath content →
  ∃ rest, filePath = dirPath ++ rest.
Proof.
  induction 1 as [dirPath entries name content Hin
                 |dirPath entries name sub filePath content Hin Ht Hk Hsub IH].
  - by exists [name].
  - destruct IH as (rest & ->). exists (name :: rest). by rewrite <- !app_assoc.
Qed.

(** The walk of a tree comes to the same as the walk of what the search
    sees of it. *)
Lemma searchEntry_view regex fileExtensions recursive child :
  ∀ dirPath name results,
    Enhanced.searchEntry regex fileExtensions recursive dirPath name child results
    = Enhanced.searchEntry regex fileExtensions recursive dirPath name
        (view recursive name child) results.
Proof.
  induction child as [content|entries IH] using node_tree_ind;
    intros dirPath name results; [done|].
  unfold view. rewrite searchEntry_Dir, descend_spec.
  destruct (truthy recursive && negb (kept_out name)) eqn:Henter.
  - rewrite visible_Dir, searchEntry_Dir, descend_spec, Henter.
    unfold Enhanced.searchDirectory. revert results.
    induction entries as [|[name' child'] rest IHrest]; intros results; [done|].
    apply Forall_cons in IH as [IHchild IHall]. simpl in IHchild |- *.
    rewrite <- IHchild. by apply IHrest.
  - by rewrite searchEntry_Dir, descend_spec, Henter.
Qed.

Lemma searchDirectory_view regex fileExtensions recursive dirPath entries results :
  Enhanced.searchDirectory regex fileExtensions recursive dirPath entries results
  = Enhanced.searchDirectory regex fileExtensions recursive dirPath
      (map (fun e => (e.1, view recursive e.1 e.2)) entries) results.
Proof.
  unfold Enhanced.searchDirectory. revert results.
  induction entries as [|[name child] rest IH]; intros results; [done|].
  simpl. rewrite <- searchEntry_view. apply IH.
Qed.

(** X16: a search does not look into the directories it stays out of.
    What lies in a directory whose name starts with a dot, or in one
    called [node_modules], has no bearing on what a search of a
    directory above it collects; and when [recursive] is given as a
    falsy value, nothing that lies in any subdirectory of the target
    has. Two file systems whose targets look the same once these
    directories are emptied give the same results, line for line. *)
Theorem search_stays_out_of_hidden_directories
    (regex : RegExp) (fileExtensions recursive : JSValue)
    (targetPath : Path) (w w' : node) (target target' : node) :
  walk targetPath w = Found target →
  walk targetPath w' = Found target' →
  visible recursive target = visible recursive target' →
  ∃ results,
    Enhanced.collect regex fileExtensions recursive targetPath w = Normal results
    ∧ Enhanced.collect regex fileExtensions recursive targetPath w' = Normal results.
Proof.
  intros Hw Hw' Hsame. unfold Enhanced.collect. rewrite Hw, Hw'.
  destruct target as [content|entries], target' as [content'|entries'].
  - injection Hsame as <-. eauto.
  - by rewrite visible_Dir in Hsame.
  - by rewrite visible_Dir in Hsame.
  - rewrite !visible_Dir in Hsame. injection Hsame as Hsame.
    rewrite (searchDirectory_view _ _ _ _ entries), (searchDirectory_view _ _ _ _ entries').
    rewrite Hsame. eauto.
Qed.

(** X17: a search started at or below the working directory cites each
    file by its path relative to the working directory, and counts the
    lines of a file from 1. The output lines are exactly these: for
    each file the search is to read and the extension list lets
    through, and each matching line of it, the components of the file's
    path that follow the working directory, joined by slashes, then the
    position of the line in the file, then the line. *)
Theorem search_cites_relative_paths
    (regex : RegExp) (fileExtensions recursive : JSValue)
    (q : Path) (w : node) (target : node) :
  Forall (fun c => c ≠ "") cwd →
  walk (cwd ++ q) w = Found target →
  ∃ results,
    Enhanced.collect regex fileExtensions recursive (cwd ++ q) w = Normal results
    ∧ ∀ r,
        r ∈ results ↔
        ∃ (rest : Path) (content : string) (index : nat) (line : string),
          scanned recursive (cwd ++ q) w (cwd ++ unslashed q ++ rest) content
          ∧ admits fileExtensions (extname (cwd ++ unslashed q ++ rest))
          ∧ split_on "010"%char content !! index = Some line
          ∧ String_match line regex = true
          ∧ r = colorize_file (join "/" (unslashed q ++ rest)) +:+ ":"
                +:+ colorize_info (pretty (S index)) +:+ ":"
                +:+ String_replace line regex colorize_highlight.
Proof.
  intros Hcwd Hwalk.
  destruct (collect_report regex fileExtensions recursive (cwd ++ q) w target Hwalk)
    as (results & Hcollect & _).
  exists results. split; [done|]. intros r.
  rewrite (collect_elem _ _ _ _ _ _ _ Hcollect). split.
  - intros (fp & c & Hscan & Hadmits & index & line & Hline & Hmatch & ->).
    assert (Hfp : ∃ rest, fp = cwd ++ unslashed q ++ rest).
    { pose proof Hscan as Hscan'. unfold scanned in Hscan'. rewrite Hwalk in Hscan'.
      destruct target as [c0|entries].
      - destruct Hscan' as [-> _]. exists [].
        rewrite app_nil_r, <- unslashed_app by done.
        by rewrite (walk_file_unslashed _ _ _ Hwalk).
      - destruct (scanned_in_components _ _ _ _ _ Hscan') as (rest & ->).
        exists rest. by rewrite unslashed_app, <- app_assoc. }
    destruct Hfp as [rest ->].
    exists rest, c, index, line. repeat (split; [done|]).
    unfold output_line. by rewrite relative_under.
  - intros (rest & c & index & line & Hscan & Hadmits & Hline & Hmatch & ->).
    exists (cwd ++ unslashed q ++ rest), c. split; [done|]. split; [done|].
    exists index, line. repeat (split; [done|]).
    unfold output_line. by rewrite relative_under.
Qed.

(** X18: with a nonempty array as [file_extensions], the output lines
    are those of the matching lines of the files that the search is to
    read and whose extension, dot included, is one of the strings of the
    array: no line of another file is printed, and no matching line of
    such a file is left out. *)
Theorem search_honours_extension_list
    (regex : RegExp) (extensions : list JSValue) (recursive : JSValue)
    (targetPath : Path) (w : node) (target : node) :
  extensions ≠ [] →
  walk targetPath w = Found target →
  ∃ results,
    Enhanced.collect regex (JArr extensions) recursive targetPath w = Normal results
    ∧ ∀ r,
        r ∈ results ↔
        ∃ (filePath : Path) (content : string) (index : nat) (line : string),
          scanned recursive targetPath w filePath content
          ∧ JStr (extname filePath) ∈ extensions
          ∧ split_on "010"%char content !! index = Some line
          ∧ String_match line regex = true
          ∧ r = output_line regex filePath (S index) line.
Proof.
  intros Hne Hwalk.
  destruct (collect_report regex (JArr extensions) recursive targetPath w target Hwalk)
    as (results & Hcollect & _).
  exists results. split; [done|]. intros r.
  rewrite (collect_elem _ _ _ _ _ _ _ Hcollect).
  unfold hit, admits. split.
  - intros (fp & c & Hscan & [?|Hext] & index & line & Hline & Hmatch & ->); [done|].
    by exists fp, c, index, line.
  - intros (fp & c & index & line & Hscan & Hext & Hline & Hmatch & ->).
    exists fp, c. split; [done|]. split; [by right|]. by exists index, line.
Qed.
End SearchLimits.

Lemma search_failures_in_order_witness :
  Enhanced.grep_search (rt := Sim.runtime) (col := Sim.plain) (re := Sim.literals)
    (nu := Sim.numbers)
    (<["pattern" := JStr "("]> {["path" := JStr "missing"]}) Sim.disk
  = (Normal "Invalid regex pattern: SyntaxError: Invalid regular expression: /(/", Sim.disk).
Proof.
  destruct (search_failures_in_order (rt := Sim.runtime) (col := Sim.plain)
              (re := Sim.literals) (nu := Sim.numbers)
              (<["pattern" := JStr "("]> {["path" := JStr "missing"]}) Sim.disk)
    as (_ & Hpattern & _).
  apply (Hpattern ["home"; "dev"; "project"; "missing"]
           (mkError "SyntaxError" None "Invalid regular expression: /(/"));
    vm_compute; reflexivity.
Defined.

Lemma search_stays_out_of_hidden_directories_witness :
  ∃ results,
    Enhanced.collect (rt := Sim.runtime) (col := Sim.plain) (re := Sim.literals)
      (nu := Sim.numbers)
      ("token", true) JUndefined (JBool true) ["home"; "dev"; "project"] Cases.cluttered
    = Normal results
    ∧ Enhanced.collect (rt := Sim.runtime) (col := Sim.plain) (re := Sim.literals)
        (nu := Sim.numbers)
        ("token", true) JUndefined (JBool true) ["home"; "dev"; "project"] Cases.tidy
      = Normal results.
Proof.
  eapply (search_stays_out_of_hidden_directories (rt := Sim.runtime) (col := Sim.plain)
            (re := Sim.literals) (nu := Sim.numbers) ("token", true) JUndefined
            (JBool true) ["home"; "dev"; "project"] Cases.cluttered Cases.tidy).
  - vm_compute. reflexivity.
  - vm_compute. reflexivity.
  - vm_compute. reflexivity.
Defined.

Lemma search_cites_relative_paths_witness :
  ∃ results,
    Enhanced.collect (rt := Sim.runtime) (col := Sim.plain) (re := Sim.literals)
      (nu := Sim.numbers)
      ("token", true) JUndefined (JBool true) ["home"; "dev"; "project"; "src"]
      Cases.cluttered
    = Normal results
    ∧ "src/a.ts:1:token" ∈ results.
Proof.
  destruct (search_cites_relative_paths (rt := Sim.runtime) (col := Sim.plain)
              (re := Sim.literals) (nu := Sim.numbers) ("token", true) JUndefined
              (JBool true) ["src"] Cases.cluttered
              (Dir [("a.ts", File "token"); ("b.md", File "token")]))
    as (results & Hcollect & Hlines).
  - repeat constructor; discriminate.
  - vm_compute. reflexivity.
  - exists results. split; [exact Hcollect|]. apply Hlines.
    exists ["a.ts"], "token", 0, "token".
    split; [|by vm_compute].
    unfold scanned.
    change (walk (cwd ++ ["src"]) Cases.cluttered)
      with (Found (Dir [("a.ts", File "token"); ("b.md", File "token")])).
    apply (scanned_here (JBool true) ["home"; "dev"; "project"; "src"]
             [("a.ts", File "token"); ("b.md", File "token")] "a.ts" "token").
    apply list_elem_of_here.
Defined.

Lemma search_honours_extension_list_witness :
  ∃ results,
    Enhanced.collect (rt := Sim.runtime) (col := Sim.plain) (re := Sim.literals)
      (nu := Sim.numbers)
      ("token", true) (JArr [JStr ".md"]) (JBool true) ["home"; "dev"; "project"; "src"]
      Cases.cluttered
    = Normal results
    ∧ "src/b.md:1:token" ∈ results
    ∧ "src/a.ts:1:token" ∉ results.
Proof.
  destruct (search_honours_extension_list (rt := Sim.runtime) (col := Sim.plain)
              (re := Sim.literals) (nu := Sim.numbers) ("token", true) [JStr ".md"]
              (JBool true) ["home"; "dev"; "project"; "src"] Cases.cluttered
              (Dir [("a.ts", File "token"); ("b.md", File "token")]))
    as (results & Hcollect & Hlines).
  - discriminate.
  - vm_compute. reflexivity.
  - exists results. split; [exact Hcollect|]. split.
    + apply Hlines.
      exists ["home"; "dev"; "project"; "src"; "b.md"], "token", 0, "token".
      split; [|split; [apply list_elem_of_here|by vm_compute]].
      unfold scanned.
      change (walk ["home"; "dev"; "project"; "src"] Cases.cluttered)
        with (Found (Dir [("a.ts", File "token"); ("b.md", File "token")])).
      apply (scanned_here (JBool true) ["home"; "dev"; "project"; "src"]
               [("a.ts", File "token"); ("b.md", File "token")] "b.md" "token").
      apply list_elem_of_further, list_elem_of_here.
    + assert (Hresults : results = ["src/b.md:1:token"]).
      { vm_compute in Hcollect. by injection Hcollect as <-. }
      rewrite Hresults. by intros [=]%list_elem_of_singleton.
Defined.

(** ** Requests and results over a whole run *)

Lemma execution_ids_executions (requests : list Request) :
  execution_ids (map execution requests) = map (fun rq : Request => rq.1.1) requests.
Proof.
  unfold execution_ids. induction requests as [|rq rest IH]; [done|].
  simpl. f_equal. exact IH.
Qed.

Lemma result_ids_app (a b : list MessageParam) :
  result_ids (a ++ b) = result_ids a ++ result_ids b.
Proof. unfold result_ids. apply bind_app. Qed.

Lemma execution_ids_app (a b : list Event) :
  execution_ids (a ++ b) = execution_ids a ++ execution_ids b.
Proof. unfold execution_ids. apply omap_app. Qed.

Section Pairing.
Context {rt : Runtime} {api : Anthropic} {tk : Tokenizer}.

Lemma run_tools_result_ids (requests : list Request) w results w' started :
  run_tools requests w = (Normal results, w', started) →
  omap (fun b => match b with
                 | ToolResultBlock id _ => Some id
                 | _ => None
                 end) results
  = map (fun rq : Request => rq.1.1) requests.
Proof.
  revert w w' results started.
  induction requests as [|rq rest IH]; intros w w' results started.
  - simpl. by intros [= <- _ _].
  - simpl. destruct (Modular.executeTool _ _ w) as [[text|e] w1]; [|done].
    destruct (run_tools rest w1) as [[[results1|e] w2] started1] eqn:Hrest; [|done].
    intros [= <- _ _]. cbn [map]. by rewrite <- (IH _ _ _ _ Hrest).
Qed.

(** The results of the transcript against the executions of the trace,
    from any state on. *)
Lemma loop_pairs fuel s :
  ∃ ids unanswered,
    result_ids (Agent.messages (state_of (Agent.loop fuel s)))
    = result_ids (Agent.messages s) ++ ids
    ∧ execution_ids (Agent.trace (state_of (Agent.loop fuel s)))
      = execution_ids (Agent.trace s) ++ ids ++ unanswered
    ∧ (unanswered ≠ [] →
       ∃ e s' tr id input,
         Agent.loop fuel s = Agent.Thrown e s'
         ∧ Agent.trace s' = tr ++ [ToolExecution id "bash" input]).
Proof.
  revert s. induction fuel as [|fuel IH]; intros s.
  { exists [], []. by rewrite !app_nil_r. }
  rewrite loop_step.
  destruct (messages_create Agent.systemPrompt (Agent.messages s))
    as [response|e] eqn:Hresp.
  - destruct (run_tools _ (Agent.disk s)) as [[[results|e] w] started] eqn:Hrun.
    + case_bool_decide as Hreq.
      * exists [], []. cbn [state_of after_answer Agent.messages Agent.trace].
        rewrite result_ids_app, execution_ids_app. simpl. by rewrite !app_nil_r.
      * destruct (IH (after_tools s response results w)) as (ids & un & Hm & Ht & Hun).
        exists (map (fun rq : Request => rq.1.1)
                    (tool_requests (response_content response)) ++ ids), un.
        rewrite Hm, Ht. cbn [after_tools Agent.messages Agent.trace].
        rewrite !result_ids_app, !execution_ids_app, execution_ids_executions.
        split; [|split; [|done]].
        -- unfold result_ids at 2 3. simpl.
           rewrite app_nil_r, (run_tools_result_ids _ _ _ _ _ Hrun).
           by rewrite <- !app_assoc.
        -- simpl. by rewrite <- !app_assoc.
    + exists [], (map (fun rq : Request => rq.1.1) started).
      cbn [state_of after_abort Agent.messages Agent.trace].
      rewrite !execution_ids_app, execution_ids_executions. simpl.
      rewrite app_nil_r. split; [done|]. split; [done|]. intros _.
      destruct (run_tools_threw _ _ _ _ _ Hrun)
        as (before & [[id name] input] & after & w0 & -> & _ & Hname & _).
      simpl in Hname. subst name.
      exists e, (after_abort s response (before ++ [(id, "bash", input)]) w),
        (Agent.trace s ++ [ModelRequest (Agent.messages s)] ++ map execution before),
        id, input.
      split; [done|]. cbn [after_abort Agent.trace].
      by rewrite map_app, !app_assoc.
  - exists [], []. cbn [state_of after_failure Agent.messages Agent.trace].
    rewrite execution_ids_app. simpl. by rewrite !app_nil_r.
Qed.
End Pairing.

(** X19: over a whole run, the tool results held by the user turns of
    the transcript carry, in order, the identifiers of the tools that
    were executed, and no result is made up. Executions are left without
    a result only when the run was ended by the exception of a [bash]
    tool: the unanswered executions then are the last ones of the run. *)
Theorem results_pair_with_executions {rt : Runtime} {api : Anthropic} {tk : Tokenizer}
    (userMessage : string) (stats : SessionStats.t) (w : node) (fuel : nat) :
  ∃ unanswered,
    execution_ids (Agent.trace (state_of (Agent.runAgent userMessage stats w fuel)))
    = result_ids (Agent.messages (state_of (Agent.runAgent userMessage stats w fuel)))
      ++ unanswered
    ∧ (unanswered ≠ [] →
       ∃ e s' tr id input,
         Agent.runAgent userMessage stats w fuel = Agent.Thrown e s'
         ∧ Agent.trace s' = tr ++ [ToolExecution id "bash" input]).
Proof.
  unfold Agent.runAgent.
  destruct (loop_pairs fuel (Agent.mkState [mkMessage user (Text userMessage)] 0 stats w []))
    as (ids & unanswered & Hm & Ht & Hun).
  exists unanswered. rewrite Hm, Ht. by split.
Qed.

Lemma transcript_alternates_witness :
  Nat.even (length (Agent.messages
                      (state_of (Agent.runAgent (rt := Sim.runtime) (api := Sim.model)
                                   (tk := Sim.tokenizer) "inspect"
                                   (SessionStats.mk 0 0 200000 0) Sim.disk 3))))
  = true.
Proof.
  apply (proj2 (transcript_alternates (rt := Sim.runtime) (api := Sim.model)
                  (tk := Sim.tokenizer) "inspect" (SessionStats.mk 0 0 200000 0)
                  Sim.disk 3)).
  vm_compute. reflexivity.
Defined.
